(** * zitie: a worksheet generator for Chinese character-practice grids

    A shallow embedding of [app.py] (colour tables, grid drawing, page
    composition, pagination, PDF export, font resolution) and of
    [dataloader.py] (the poem corpus loader), with the properties of the
    written specification stated and proved over it.

    Python values are modelled as follows.
    - [int] is [Z] (unbounded); [//] is [Z.div], which floors like Python.
    - [str] used as a name, label or path is [string] (its UTF-8 bytes);
      [str] used as text to lay out is a list of code points.
    - a [list] is a [list]; a [dict] with string keys is a [gmap string _].
    - a drawing surface is the list of primitives drawn on it so far, in
      order; a function that draws takes the surface and returns it extended.
    - a function that may raise returns a [result]. *)

From Stdlib Require Import ZArith Lia Ascii.
From stdpp Require Import base option list numbers strings gmap.

Local Open Scope Z_scope.

(** ** Python prelude *)

Module Py.

(** The exceptions the modelled code can raise. *)
Inductive exn : Type :=
| ZeroDivisionError
| KeyError
| FileNotFoundError
| NotADirectoryError
| IsADirectoryError
| JSONDecodeError
| AttributeError
| TypeError.

Inductive result (A : Type) : Type :=
| Ok (a : A)
| Raise (e : exn).
Arguments Ok {A} a.
Arguments Raise {A} e.

Definition bind {A B} (m : result A) (k : A → result B) : result B :=
  match m with
  | Ok a => k a
  | Raise e => Raise e
  end.

Definition fmap {A B} (f : A → B) (m : result A) : result B :=
  bind m (λ a, Ok (f a)).

(** Runs [f] on the elements from left to right and stops at the first
    exception, as a [for] loop whose body may raise. *)
Fixpoint for_each {A B} (f : A → result B) (l : list A) : result (list B) :=
  match l with
  | [] => Ok []
  | a :: l' =>
      bind (f a) (λ b, bind (for_each f l') (λ bs, Ok (b :: bs)))
  end.

(** [range(n)]. *)
Definition range (n : Z) : list Z := seqZ 0 n.

(** [len(l)]. *)
Definition len {A} (l : list A) : Z := Z.of_nat (length l).

(** How a slice bound is brought into [0 .. n]: a negative bound counts
    from the end, and both ends are clipped. *)
Definition clip (n i : Z) : Z :=
  if i <? 0 then Z.max 0 (n + i) else Z.min i n.

(** [l[start:stop]]. *)
Definition slice {A} (l : list A) (start stop : Z) : list A :=
  let n := len l in
  let s := clip n start in
  let e := clip n stop in
  take (Z.to_nat (e - s)) (drop (Z.to_nat s) l).

(** [math.ceil(a / b)] for [b] other than zero.  The quotient [a / b] is a
    double; it is the correctly rounded true quotient, and its ceiling is the
    ceiling of the true quotient as long as the operands stay below [2^53]
    in magnitude, which list lengths and grid dimensions do. *)
Definition ceil_div (a b : Z) : Z := - ((- a) `div` b).

(** [str.isspace] on one code point: CPython's table of whitespace
    characters (bidirectional class WS, B or S, or category Zs). *)
Definition isspace (c : N) : bool :=
  ((0x09 <=? c) && (c <=? 0x0D) ||
   (0x1C <=? c) && (c <=? 0x20) ||
   (c =? 0x85) || (c =? 0xA0) || (c =? 0x1680) ||
   (0x2000 <=? c) && (c <=? 0x200A) ||
   (c =? 0x2028) || (c =? 0x2029) || (c =? 0x202F) ||
   (c =? 0x205F) || (c =? 0x3000))%N.

End Py.

Import Py.

#[global] Instance result_ret : MRet result := @Ok.
#[global] Instance result_bind : MBind result := λ A B k m, Py.bind m k.
#[global] Instance result_fmap : FMap result := λ A B f m, Py.fmap f m.

(** A code point of the text to lay out. *)
Abbreviation codepoint := N (only parsing).

(** An RGB triple. *)
Definition rgb : Type := Z * Z * Z.

(** ** Colour tables *)

Definition get_grid_color (name : string) : rgb :=
  if decide (name = "绿色") then (0, 160, 0)
  else if decide (name = "红色") then (200, 0, 0)
  else (0, 0, 0).

Definition get_text_color (name : string) : rgb :=
  if decide (name = "绿色") then (0, 160, 0)
  else if decide (name = "红色") then (200, 0, 0)
  else (0, 0, 0).

(** The [mapping] dictionary of [get_demo_alpha]. *)
Definition demo_alpha_mapping : gmap string Z :=
  list_to_map
    [ ("非常深", 220); ("深", 190); ("较深", 160); ("略浅", 130);
      ("适中", 110); ("非常浅", 80); ("白色（不可见）", 0); ("空芯", 200) ].

Definition get_demo_alpha (level : string) : Z :=
  default 110 (demo_alpha_mapping !! level).

(** ** Grid drawing *)

(** What [ImageDraw] is asked to draw: [rectangle(box, outline, width)] and
    [line(xy, fill, width)]. *)
Inductive prim : Type :=
| Rectangle (box : Z * Z * Z * Z) (outline : rgb) (width : Z)
| Line (xy : Z * Z * Z * Z) (fill : rgb) (width : Z).

(** The surface [draw] draws on. *)
Definition surface : Type := list prim.

Definition draw_tianzige (draw : surface) (x y size : Z) (color : rgb) : surface :=
  let x2 := x + size in
  let y2 := y + size in
  let draw := draw ++ [Rectangle (x, y, x2, y2) color 2] in
  let draw := draw ++ [Line (x + size `div` 2, y, x + size `div` 2, y2) color 1] in
  draw ++ [Line (x, y + size `div` 2, x2, y + size `div` 2) color 1].

Definition draw_mizige (draw : surface) (x y size : Z) (color : rgb) : surface :=
  let x2 := x + size in
  let y2 := y + size in
  let draw := draw ++ [Rectangle (x, y, x2, y2) color 2] in
  let draw := draw ++ [Line (x, y, x2, y2) color 1] in
  let draw := draw ++ [Line (x2, y, x, y2) color 1] in
  let draw := draw ++ [Line (x + size `div` 2, y, x + size `div` 2, y2) color 1] in
  draw ++ [Line (x, y + size `div` 2, x2, y + size `div` 2) color 1].

Definition draw_huigongge (draw : surface) (x y size : Z) (color : rgb) : surface :=
  let x2 := x + size in
  let y2 := y + size in
  let draw := draw ++ [Rectangle (x, y, x2, y2) color 2] in
  let margin := size `div` 6 in
  let draw :=
    draw ++ [Rectangle (x + margin, y + margin, x2 - margin, y2 - margin) color 1] in
  let margin2 := margin * 2 in
  draw ++ [Rectangle (x + margin2, y + margin2, x2 - margin2, y2 - margin2) color 1].

Definition draw_square (draw : surface) (x y size : Z) (color : rgb) : surface :=
  let x2 := x + size in
  let y2 := y + size in
  draw ++ [Rectangle (x, y, x2, y2) color 2].

Definition draw_jiugongge (draw : surface) (x y size : Z) (color : rgb) : surface :=
  let x2 := x + size in
  let y2 := y + size in
  let draw := draw ++ [Rectangle (x, y, x2, y2) color 2] in
  let step := size `div` 3 in
  let draw := draw ++ [Line (x + step, y, x + step, y2) color 1] in
  let draw := draw ++ [Line (x + 2 * step, y, x + 2 * step, y2) color 1] in
  let draw := draw ++ [Line (x, y + step, x2, y + step) color 1] in
  draw ++ [Line (x, y + 2 * step, x2, y + 2 * step) color 1].

Definition draw_grid (draw : surface) (x y size : Z) (grid_type : string)
    (color : rgb) : surface :=
  if decide (grid_type = "田字格") then draw_tianzige draw x y size color
  else if decide (grid_type = "米字格") then draw_mizige draw x y size color
  else if decide (grid_type = "回宫格") then draw_huigongge draw x y size color
  else if decide (grid_type = "方格") then draw_square draw x y size color
  else if decide (grid_type = "九宫格") then draw_jiugongge draw x y size color
  else draw_square draw x y size color.

(** The rectangle inset by [margin] from every edge of the cell at [(x, y)]
    of side [size], one pixel wide. *)
Definition inset_rectangle (x y size margin : Z) (color : rgb) : prim :=
  Rectangle (x + margin, y + margin, x + size - margin, y + size - margin) color 1.

(** The nested-box style as the specification words it: the outer rectangle
    and two inset rectangles at margins [size/6] and [size/3]. *)
Definition nested_box_as_specified (x y size : Z) (color : rgb) : list prim :=
  [ Rectangle (x, y, x + size, y + size) color 2;
    inset_rectangle x y size (size `div` 6) color;
    inset_rectangle x y size (size `div` 3) color ].

(** ** The imaging library

    Pillow and the file system behind it are outside the repository.  What
    the code asks of them is collected in one record, so that every function
    below is a function of its arguments and of this environment. *)

(** One call of [text_draw.text(xy, ch, font, fill, anchor="mm")]. *)
Record glyph (F : Type) : Type := Glyph {
  glyph_xy : Z * Z;
  glyph_char : codepoint;
  glyph_font : F;
  glyph_fill : Z * Z * Z * Z;
}.
Arguments Glyph {F} _ _ _ _.
Arguments glyph_xy {F} _.
Arguments glyph_char {F} _.
Arguments glyph_font {F} _.
Arguments glyph_fill {F} _.

(** A rendered page: what was drawn on the white base image, and what was
    drawn on the transparent text layer composited over it.  A text layer
    nothing was drawn on is fully transparent, and compositing it leaves the
    base image as it is. *)
Record page_image (F : Type) : Type := PageImage {
  base_layer : surface;
  text_layer : list (glyph F);
}.
Arguments PageImage {F} _ _.
Arguments base_layer {F} _.
Arguments text_layer {F} _.

Record pillow : Type := Pillow {
  (** a font handle *)
  font : Type;
  (** [ImageFont.truetype(path, size)]; [None] when it raises *)
  truetype : string → Z → option font;
  (** [font.getname()]; [None] when the handle has no such method *)
  getname : font → option (string * string);
  (** [ImageFont.load_default()] *)
  load_default : font;
  (** [str(Path(path))] *)
  path_str : string → string;
  (** [int(cell_size * 0.7)], a floating-point product *)
  font_size_of : Z → Z;
  (** the bytes [first.save(buf, format="PDF", save_all=True,
      append_images=rest)] writes *)
  save_pdf : page_image font → list (page_image font) → list Byte.byte;
}.

Definition PAGE_WIDTH : Z := 2480.
Definition PAGE_HEIGHT : Z := 3508.

(** ** Font resolution *)

(** The [info] dictionary of [load_font]. *)
Record font_info : Type := FontInfo {
  info_path : string;
  info_family : string;
  info_style : string;
  info_source : string;
}.

Section FontResolver.
Context (pil : pillow).

(** The inner [try_path] of [load_font]; [tried_paths], which it appends to
    on failure, is threaded through. *)
Definition try_path (size : Z) (tried_paths : list string) (path source_label : string)
    : option (font pil * font_info) * list string :=
  match truetype pil path size with
  | Some fnt =>
      match getname pil fnt with
      | Some (family, style) =>
          (Some (fnt, FontInfo (path_str pil path) family style source_label),
           tried_paths)
      | None => (None, tried_paths ++ [path])
      end
  | None => (None, tried_paths ++ [path])
  end.

Definition fallbacks : list string := ["simkai.ttf"; "simhei.ttf"; "msyh.ttc"].

Definition fallback_label (fb : string) : string :=
  "回退字体（" +:+ fb +:+ "）".

(** The [for fb in fallbacks] loop of [load_font]: returns at the first
    fallback that loads. *)
Fixpoint try_fallbacks (size : Z) (tried_paths : list string) (fbs : list string)
    : option (font pil * font_info) * list string :=
  match fbs with
  | [] => (None, tried_paths)
  | fb :: fbs' =>
      match try_path size tried_paths fb (fallback_label fb) with
      | (Some r, tried) => (Some r, tried)
      | (None, tried) => try_fallbacks size tried fbs'
      end
  end.

Definition default_font : font pil * font_info :=
  let fnt := load_default pil in
  let '(family, style) :=
    match getname pil fnt with
    | Some n => n
    | None => ("Pillow 默认字体", "Regular")
    end in
  (fnt, FontInfo "Pillow 内置默认字体（可能不支持中文）" family style "Pillow 默认字体").

(** [load_font(font_path, size)].  The [st.cache_resource] decorator only
    memoises it. *)
Definition load_font (font_path : string) (size : Z) : result (font pil * font_info) :=
  let tried_paths := [] in
  let '(first, tried_paths) :=
    if decide (font_path = "") then (None, tried_paths)
    else try_path size tried_paths font_path "用户选择字体" in
  match first with
  | Some r => Ok r
  | None =>
      match try_fallbacks size tried_paths fallbacks with
      | (Some r, _) => Ok r
      | (None, _) => Ok default_font
      end
  end.

(** The resolution order as the specification words it: the candidates, in
    order, are the requested path when it is not empty and then the fixed
    fallback names; the first that loads is returned, and the built-in
    default when none does. *)
Definition candidates (font_path : string) : list (string * string) :=
  (if decide (font_path = "") then [] else [(font_path, "用户选择字体")])
  ++ ((λ fb, (fb, fallback_label fb)) <$> fallbacks).

Definition loads (size : Z) (c : string * string) : option (font pil * font_info) :=
  fnt ← truetype pil c.1 size;
  n ← getname pil fnt;
  Some (fnt, FontInfo (path_str pil c.1) n.1 n.2 c.2).

Definition resolve_as_specified (font_path : string) (size : Z) : font pil * font_info :=
  default default_font (head (omap (loads size) (candidates font_path))).

End FontResolver.

(** ** Page composition, pagination and export *)

(** [a // b]. *)
Definition floordiv (a b : Z) : result Z :=
  if decide (b = 0) then Raise ZeroDivisionError else Ok (a `div` b).

(** [[c for c in text if not c.isspace()]]. *)
Definition strip_whitespace (text : list codepoint) : list codepoint :=
  List.filter (λ c, negb (isspace c)) text.

(** [layout_chars(chars, repeat)]: [result.extend([ch] * repeat)] for every
    [ch], in order.  [[ch] * repeat] is empty for [repeat <= 0]. *)
Definition layout_chars (chars : list codepoint) (repeat : Z) : list codepoint :=
  foldl (λ result ch, result ++ replicate (Z.to_nat repeat) ch) [] chars.

(** The rows of a page that carry characters: all of them, or
    [math.ceil(rows / 2)] when every row is followed by a blank one. *)
Definition demo_rows_per_page (rows : Z) (blank_row_after_each : bool) : Z :=
  if blank_row_after_each then ceil_div rows 2 else rows.

Definition page_capacity (cols rows : Z) (blank_row_after_each : bool) : Z :=
  cols * demo_rows_per_page rows blank_row_after_each.

(** [max(1, math.ceil(len(chars) / page_capacity))]. *)
Definition total_pages (chars : list codepoint) (page_capacity : Z) : result Z :=
  if decide (page_capacity = 0) then Raise ZeroDivisionError
  else Ok (Z.max 1 (ceil_div (len chars) page_capacity)).

(** The [page_chars] of page [page_idx] as first sliced from the stream:
    [chars[start:end]]. *)
Definition page_slice (chars : list codepoint) (page_capacity page_idx : Z)
    : list codepoint :=
  let start := page_idx * page_capacity in
  let stop := start + page_capacity in
  slice chars start stop.

(** The padding of a sliced page: when [fill_last_page] is set and the
    slice is short and not empty, its last character is repeated up to the
    capacity. *)
Definition fill_page (fill_last_page : bool) (page_capacity : Z)
    (page_chars : list codepoint) : list codepoint :=
  if fill_last_page && (len page_chars <? page_capacity)
     && negb (bool_decide (page_chars = [])) then
    match last page_chars with
    | Some last_ch =>
        page_chars ++ replicate (Z.to_nat (page_capacity - len page_chars)) last_ch
    | None => page_chars
    end
  else page_chars.

(** The [page_chars] page [page_idx] is rendered from. *)
Definition page_chars_of (chars : list codepoint) (page_capacity : Z)
    (fill_last_page : bool) (page_idx : Z) : list codepoint :=
  fill_page fill_last_page page_capacity (page_slice chars page_capacity page_idx).

(** The chunks [generate_multi_page_images] hands to the page composer, one
    per page, for a stream [chars] that has been stripped and repeated. *)
Definition paginate (chars : list codepoint) (cols rows : Z)
    (fill_last_page blank_row_after_each : bool) : result (list (list codepoint)) :=
  let page_capacity := page_capacity cols rows blank_row_after_each in
  total_pages ← total_pages chars page_capacity;
  Ok (page_chars_of chars page_capacity fill_last_page <$> range total_pages).

(** [stream[i·capacity : (i+1)·capacity]], the chunk of page [i] as the
    specification writes it, for a capacity that is not negative. *)
Definition stream_slice (chars : list codepoint) (capacity : Z) (i : nat)
    : list codepoint :=
  take (Z.to_nat capacity) (drop (i * Z.to_nat capacity) chars).

(** [sum(len(chunk) for chunk in pages)]. *)
Definition total_length (pages : list (list codepoint)) : Z :=
  Z.of_nat (sum_list_with length pages).

(** The relation between the chunks and the stream as the specification
    words it: the chunks are at least as long as the stream together, and
    exactly as long precisely when [fill_last_page] is off. *)
Definition covers_stream_with_equality_iff_unfilled (chars : list codepoint)
    (fill_last_page : bool) (pages : list (list codepoint)) : Prop :=
  len chars ≤ total_length pages
  ∧ (total_length pages = len chars ↔ fill_last_page = false).

Section Composer.
Context (pil : pillow).

(** The variables the cell loop of the page composer updates. *)
Record composer : Type := Composer {
  cmp_draw : surface;
  cmp_text : list (glyph (font pil));
  cmp_index : Z;
}.

Section Cell.
Context (page_chars : list codepoint) (grid_type : string) (grid_color text_color : rgb)
  (alpha cols cell_size offset_x offset_y max_demo_cells : Z) (fnt : font pil)
  (show_demo blank_row_after_each : bool).

(** The body of the loop over [c], at row [r]. *)
Definition compose_cell (r : Z) (st : composer) (c : Z) : composer :=
  let x := offset_x + c * cell_size in
  let y := offset_y + r * cell_size in
  let draw := draw_grid (cmp_draw st) x y cell_size grid_type grid_color in
  let is_demo_row := if blank_row_after_each then r `mod` 2 =? 0 else true in
  let index := cmp_index st in
  if show_demo && is_demo_row && (index <? len page_chars) && (index <? max_demo_cells)
  then
    match page_chars !! Z.to_nat index with
    | Some ch =>
        let offset_y_char := 0 in
        let cx := x + cell_size `div` 2 in
        let cy := y + cell_size `div` 2 + offset_y_char in
        let '(red, green, blue) := text_color in
        Composer draw
          (cmp_text st ++ [Glyph (cx, cy) ch fnt (red, green, blue, alpha)])
          (index + 1)
    | None => Composer draw (cmp_text st) index
    end
  else Composer draw (cmp_text st) index.

Definition compose_row (st : composer) (r : Z) : composer :=
  foldl (compose_cell r) st (range cols).

End Cell.

Definition generate_single_page_image (page_chars : list codepoint)
    (grid_type grid_color_name text_color_name demo_level : string) (cols rows : Z)
    (font_path : string) (show_demo blank_row_after_each : bool)
    : result (page_image (font pil)) :=
  let grid_color := get_grid_color grid_color_name in
  let text_color := get_text_color text_color_name in
  let alpha := get_demo_alpha demo_level in
  let margin_x := 150 in
  let margin_y := 250 in
  let usable_width := PAGE_WIDTH - margin_x * 2 in
  let usable_height := PAGE_HEIGHT - margin_y * 2 in
  cell_w ← floordiv usable_width cols;
  cell_h ← floordiv usable_height rows;
  let cell_size := Z.min cell_w cell_h in
  let offset_x := (PAGE_WIDTH - cell_size * cols) `div` 2 in
  let offset_y := (PAGE_HEIGHT - cell_size * rows) `div` 2 in
  let font_size := font_size_of pil cell_size in
  '(fnt, _) ← load_font pil font_path font_size;
  let max_demo_cells := cols * demo_rows_per_page rows blank_row_after_each in
  let st :=
    foldl
      (compose_row page_chars grid_type grid_color text_color alpha cols cell_size
         offset_x offset_y max_demo_cells fnt show_demo blank_row_after_each)
      (Composer [] [] 0) (range rows) in
  Ok (PageImage (cmp_draw st) (cmp_text st)).

(** [generate_multi_page_images].  The source slices and renders page by
    page in one loop; slicing cannot raise, so the chunks are taken first. *)
Definition generate_multi_page_images (text : list codepoint)
    (grid_type grid_color_name text_color_name demo_level : string)
    (cols rows repeat_each : Z) (font_path : string)
    (show_demo fill_last_page blank_row_after_each : bool)
    : result (list (page_image (font pil))) :=
  let chars := strip_whitespace text in
  if bool_decide (chars = []) then Ok []
  else
    let chars := layout_chars chars repeat_each in
    pages ← paginate chars cols rows fill_last_page blank_row_after_each;
    for_each
      (λ page_chars,
         generate_single_page_image page_chars grid_type grid_color_name
           text_color_name demo_level cols rows font_path show_demo
           blank_row_after_each)
      pages.

(** [images_to_pdf]; the pages are RGB already, so [convert("RGB")] leaves
    them as they are. *)
Definition images_to_pdf (images : list (page_image (font pil))) : list Byte.byte :=
  match images with
  | [] => []
  | first :: rest => save_pdf pil first rest
  end.

End Composer.

(** ** Python strings held as UTF-8 *)

Module Str.

Definition byte_value (a : ascii) : N := N_of_ascii a.

(** A continuation byte [10xxxxxx]. *)
Definition is_continuation (a : ascii) : bool :=
  ((128 <=? byte_value a) && (byte_value a <? 192))%N.

(** The bytes grouped by character: a lead byte with the continuation bytes
    that follow it. *)
Fixpoint utf8_groups (bs : list ascii) : list (list ascii) :=
  match bs with
  | [] => []
  | b :: bs' =>
      match utf8_groups bs' with
      | (c :: g) :: gs =>
          if is_continuation c then (b :: c :: g) :: gs else [b] :: (c :: g) :: gs
      | gs => [b] :: gs
      end
  end.

(** The code point a group encodes. *)
Definition decode (g : list ascii) : N :=
  match g with
  | [] => 0%N
  | b :: rest =>
      let lead :=
        match rest with
        | [] => byte_value b
        | _ => (byte_value b `mod` 2 ^ (6 - N.of_nat (length rest)))%N
        end in
      foldl (λ acc c, (acc * 64 + byte_value c `mod` 64)%N) lead rest
  end.

(** The characters of a string, each as a string of its own. *)
Definition chars (s : string) : list string :=
  String.string_of_list_ascii <$> utf8_groups (String.list_ascii_of_string s).

(** [ord(ch)] of a one-character string. *)
Definition ord (ch : string) : N := decode (String.list_ascii_of_string ch).

Fixpoint drop_spaces (cs : list string) : list string :=
  match cs with
  | [] => []
  | c :: cs' => if isspace (ord c) then drop_spaces cs' else cs
  end.

(** [sep.join(parts)]. *)
Definition join (sep : string) (parts : list string) : string :=
  String.concat sep parts.

(** [s.strip()]. *)
Definition strip (s : string) : string :=
  join "" (reverse (drop_spaces (reverse (drop_spaces (chars s))))).

(** [posixpath.join(a, b)]. *)
Definition path_join (a b : string) : string :=
  if String.prefix "/" b then b
  else if bool_decide (a = "") || bool_decide (last (String.list_ascii_of_string a) = Some "/"%char)
  then a +:+ b
  else a +:+ "/" +:+ b.

End Str.

(** ** The poem corpus loader *)

Module Loader.

(** A value [json.load] returns.  An object holds the items of the [dict]
    it becomes, so no key occurs twice; a number is kept as it is written. *)
#[local] Unset Elimination Schemes.
Inductive json : Type :=
| JNull
| JBool (b : bool)
| JNumber (literal : string)
| JStr (s : string)
| JArr (items : list json)
| JObj (fields : list (string * json)).
#[local] Set Elimination Schemes.

(** What a path names. *)
Inductive node : Type :=
| Missing
| File (content : option json)   (* [None]: not valid JSON *)
| Dir (entries : list string).

(** The file system the loader reads, and Python's rendering of values. *)
Record host : Type := Host {
  fs : string → node;
  (** [str(v)] for a value [v] that is not a string *)
  render : json → string;
}.

(** One entry of the [datasets] object of [datas.json]. *)
Record dataset : Type := Dataset {
  ds_id : Z;
  ds_path : string;
  ds_tag : string;
  ds_excludes : option (list string);   (* [None]: no such key *)
}.

(** A [PlainDataLoader] after [__init__]. *)
Record PlainDataLoader : Type := {
  top_level_path : string;
  datasets : gmap string dataset;
}.

(** A left-to-right loop over [l] that updates [s] and may raise. *)
Fixpoint loop {A S} (body : S → A → result S) (s : S) (l : list A) : result S :=
  match l with
  | [] => Ok s
  | a :: l' => s' ← body s a; loop body s' l'
  end.

Section WithHost.
Context (h : host).

Definition isfile (path : string) : bool :=
  match fs h path with File _ => true | _ => false end.

Definition listdir (path : string) : result (list string) :=
  match fs h path with
  | Dir entries => Ok entries
  | Missing => Raise FileNotFoundError
  | File _ => Raise NotADirectoryError
  end.

(** [with open(path) as f: data = json.load(f)]. *)
Definition load_json (path : string) : result json :=
  match fs h path with
  | File (Some data) => Ok data
  | File None => Raise JSONDecodeError
  | Missing => Raise FileNotFoundError
  | Dir _ => Raise IsADirectoryError
  end.

(** The values [for poem in data] goes through. *)
Definition iterate (data : json) : result (list json) :=
  match data with
  | JArr items => Ok items
  | JObj fields => Ok ((λ kv, JStr kv.1) <$> fields)
  | JStr s => Ok (JStr <$> Str.chars s)
  | _ => Raise TypeError
  end.

Definition assoc (fields : list (string * json)) (key : string) : option json :=
  (λ found, found.2.2) <$> list_find (λ kv, kv.1 = key) fields.

(** [poem.get(key, default)]. *)
Definition dict_get (poem : json) (key : string) (dflt : json) : result json :=
  match poem with
  | JObj fields => Ok (default dflt (assoc fields key))
  | _ => Raise AttributeError
  end.

(** [poem[key]]. *)
Definition subscript (poem : json) (key : string) : result json :=
  match poem with
  | JObj fields =>
      match assoc fields key with
      | Some v => Ok v
      | None => Raise KeyError
      end
  | _ => Raise TypeError
  end.

(** [f"{v}"]. *)
Definition format (v : json) : string :=
  match v with
  | JStr s => s
  | _ => render h v
  end.

(** [isinstance(p, str) and p.strip()]. *)
Definition is_nonblank_str (p : json) : bool :=
  match p with
  | JStr s => negb (bool_decide (Str.strip s = ""))
  | _ => false
  end.

Definition str_value (p : json) : string :=
  match p with JStr s => s | _ => "" end.

(** The body of [for poem in data] in [collect_from_file]. *)
Definition collect_poem (tag : string) (texts : list string) (poem : json)
    : result (list string) :=
  paras ← dict_get poem tag (JArr []);
  let text :=
    match paras with
    | JStr s => Str.strip s
    | JArr items => Str.join (String "010" "") (str_value <$> List.filter is_nonblank_str items)
    | _ => render h paras
    end in
  if bool_decide (text = "") then Ok texts
  else
    title_ ← dict_get poem "title" (JStr "");
    rhythmic ← dict_get poem "rhythmic" (JStr "");
    chapter ← dict_get poem "chapter" (JStr "");
    section_ ← dict_get poem "section" (JStr "");
    author ← dict_get poem "author" (JStr "");
    let title :=
      format title_ +:+ format rhythmic +:+ format chapter +:+ format section_
      +:+ "·" +:+ format author in
    Ok (texts ++ [title +:+ String "010" "" +:+ text]).

Definition collect_from_file (tag : string) (texts : list string) (filepath : string)
    : result (list string) :=
  data ← load_json filepath;
  poems ← iterate data;
  loop (collect_poem tag) texts poems.

Definition not_included (target : string) : string :=
  target +:+ " is not included in datas.json as a dataset".

(** [poems_as_text(target)]: the lines printed, and the outcome. *)
Definition poems_as_text (self : PlainDataLoader) (target : string)
    : list string * result (list string) :=
  match datasets self !! target with
  | None => ([not_included target], Ok [])
  | Some configs =>
      let tag := ds_tag configs in
      let texts := [] in
      let full_path := Str.path_join (top_level_path self) (ds_path configs) in
      ([],
       if isfile full_path then collect_from_file tag texts full_path
       else
         subpaths ← listdir full_path;
         loop
           (λ texts filename,
              if bool_decide (filename ∈ default [] (ds_excludes configs)) then Ok texts
              else collect_from_file tag texts (Str.path_join full_path filename))
           texts subpaths)
  end.

(** What [body += v] appends. *)
Definition extend_with (body : list json) (v : json) : result (list json) :=
  items ← iterate v; Ok (body ++ items).

Definition extract_file (tag : string) (body : list json) (filepath : string)
    : result (list json) :=
  data ← load_json filepath;
  poems ← iterate data;
  loop (λ body poem, v ← subscript poem tag; extend_with body v) body poems.

(** [body_extractor(target)]: the lines printed, and the outcome, where
    [Ok None] is a returned [None]. *)
Definition body_extractor (self : PlainDataLoader) (target : string)
    : list string * result (option (list json)) :=
  match datasets self !! target with
  | None => ([not_included target], Ok None)
  | Some configs =>
      let tag := ds_tag configs in
      let body := [] in
      let full_path := Str.path_join (top_level_path self) (ds_path configs) in
      ([],
       if isfile full_path then Some <$> extract_file tag body full_path
       else
         subpaths ← listdir full_path;
         Some <$>
           loop
             (λ body filename,
                excludes ← match ds_excludes configs with
                           | Some e => Ok e
                           | None => Raise KeyError
                           end;
                if bool_decide (filename ∈ excludes) then Ok body
                else extract_file tag body (Str.path_join full_path filename))
             body subpaths)
  end.

End WithHost.

(** The dataset, or what backs it, is unavailable: the identifier is not in
    the registry, or it is and nothing exists at its path. *)
Definition unavailable (h : host) (self : PlainDataLoader) (target : string) : Prop :=
  match datasets self !! target with
  | None => True
  | Some configs => fs h (Str.path_join (top_level_path self) (ds_path configs)) = Missing
  end.

(** Degrading as the specification words it: an empty list is returned and
    a warning is logged. *)
Definition degrades_gracefully (outcome : list string * result (list string)) : Prop :=
  outcome.2 = Ok [] ∧ outcome.1 ≠ [].

End Loader.

(** ** Sample environments

    A machine on which only [simhei.ttf] can be loaded, and a checkout of the
    corpus in which one dataset is a single file, one is a directory, and one
    is registered but was never fetched. *)

Definition sample_pillow : pillow :=
  {| font := string;
     truetype := λ path size,
       if bool_decide (path = "simhei.ttf") && (0 <? size) then Some path else None;
     getname := λ fnt, Some (fnt, "Regular");
     load_default := "default";
     path_str := λ path, path;
     font_size_of := λ cell_size, (cell_size * 7) `div` 10;
     save_pdf := λ first rest, (λ _, Byte.x25) <$> (first :: rest) |}.

Definition sample_poem : Loader.json :=
  Loader.JObj
    [ ("title", Loader.JStr "静夜思");
      ("author", Loader.JStr "李白");
      ("paragraphs",
       Loader.JArr [Loader.JStr "床前明月光，疑是地上霜。"; Loader.JStr " ";
                    Loader.JStr "举头望明月，低头思故乡。"]) ].

Definition sample_host : Loader.host :=
  {| Loader.fs := λ path,
       if bool_decide (path = "./chinese-poetry/tang/poems.json") then
         Loader.File (Some (Loader.JArr [sample_poem]))
       else if bool_decide (path = "./chinese-poetry/song") then
         Loader.Dir ["ci.json"; "README.md"]
       else if bool_decide (path = "./chinese-poetry/song/ci.json") then
         Loader.File (Some (Loader.JArr [sample_poem; sample_poem]))
       else if bool_decide (path = "./chinese-poetry/song/README.md") then
         Loader.File None
       else Loader.Missing;
     Loader.render := λ _, "" |}.

Definition sample_loader : Loader.PlainDataLoader :=
  {| Loader.top_level_path := "./chinese-poetry/";
     Loader.datasets :=
       list_to_map
         [ ("tang", Loader.Dataset 0 "tang/poems.json" "paragraphs" None);
           ("song", Loader.Dataset 1 "song" "paragraphs" (Some ["README.md"]));
           ("yuan", Loader.Dataset 2 "yuan" "paragraphs" None) ] |}.

(** ** Where drawing lands *)

(** The colour a primitive is drawn in. *)
Definition prim_color (p : prim) : rgb :=
  match p with
  | Rectangle _ color _ => color
  | Line _ color _ => color
  end.

(** The primitive lies in the box from [(x0, y0)] to [(x1, y1)]; a
    rectangle, moreover, has its corners in order, as Pillow requires. *)
Definition prim_within (x0 y0 x1 y1 : Z) (p : prim) : Prop :=
  match p with
  | Rectangle (a, b, c, d) _ _ => x0 ≤ a ∧ a ≤ c ∧ c ≤ x1 ∧ y0 ≤ b ∧ b ≤ d ∧ d ≤ y1
  | Line (a, b, c, d) _ _ =>
      x0 ≤ a ≤ x1 ∧ x0 ≤ c ≤ x1 ∧ y0 ≤ b ≤ y1 ∧ y0 ≤ d ≤ y1
  end.

(** ** Where a page puts its cells *)

(** The side of a cell on a page of [cols] by [rows] cells. *)
Definition grid_cell_size (cols rows : Z) : Z :=
  Z.min ((PAGE_WIDTH - 150 * 2) `div` cols) ((PAGE_HEIGHT - 250 * 2) `div` rows).

(** The top-left corner of the grid, which is centred on the page. *)
Definition grid_origin (cols rows : Z) : Z * Z :=
  ((PAGE_WIDTH - grid_cell_size cols rows * cols) `div` 2,
   (PAGE_HEIGHT - grid_cell_size cols rows * rows) `div` 2).

(** The row and column of the [k]-th cell that takes a character, counting
    from zero in row-major order; when every row is followed by a blank one,
    only rows 0, 2, 4, ... take characters. *)
Definition demo_cell (cols : Z) (blank_row_after_each : bool) (k : Z) : Z * Z :=
  let row := k `div` cols in
  (if blank_row_after_each then 2 * row else row, k `mod` cols).

(** The centre of the cell at row [rc.1] and column [rc.2] of a grid of
    cells of side [cell_size] whose top-left corner is at
    [(offset_x, offset_y)]. *)
Definition centre_in (cell_size offset_x offset_y : Z) (rc : Z * Z) : Z * Z :=
  (offset_x + rc.2 * cell_size + cell_size `div` 2,
   offset_y + rc.1 * cell_size + cell_size `div` 2).

(** The centre of a cell of the page. *)
Definition cell_centre (cols rows : Z) (rc : Z * Z) : Z * Z :=
  centre_in (grid_cell_size cols rows) (grid_origin cols rows).1
    (grid_origin cols rows).2 rc.

(** The glyphs of a chunk, were all of it drawn: character [k] at the centre
    of the [k]-th cell that takes a character. *)
Definition glyphs_in {F} (cols cell_size offset_x offset_y : Z)
    (blank_row_after_each : bool) (fnt : F) (fill : Z * Z * Z * Z)
    (page_chars : list codepoint) : list (glyph F) :=
  imap
    (λ k ch,
       Glyph
         (centre_in cell_size offset_x offset_y
            (demo_cell cols blank_row_after_each (Z.of_nat k)))
         ch fnt fill)
    page_chars.

Definition expected_glyphs {F} (cols rows : Z) (blank_row_after_each : bool)
    (fnt : F) (fill : Z * Z * Z * Z) (page_chars : list codepoint) : list (glyph F) :=
  glyphs_in cols (grid_cell_size cols rows) (grid_origin cols rows).1
    (grid_origin cols rows).2 blank_row_after_each fnt fill page_chars.

(** After [n] cells that take a character have been passed, the text layer
    holds the first [n] of the expected glyphs, or all of them. *)
Definition fills_first {F} (expected : list (glyph F)) (n index : Z)
    (glyphs : list (glyph F)) : Prop :=
  index = Z.min (len expected) n
  ∧ glyphs = take (Z.to_nat n) expected.

(** The characters on a text layer, in the order they were drawn. *)
Definition drawn_chars {F} (glyphs : list (glyph F)) : list codepoint :=
  glyph_char <$> glyphs.

(** The point lies in the box from [(x0, y0)] to [(x1, y1)]. *)
Definition point_within (x0 y0 x1 y1 : Z) (xy : Z * Z) : Prop :=
  x0 ≤ xy.1 ≤ x1 ∧ y0 ≤ xy.2 ≤ y1.

(** What the cell loop keeps true of the text layer: it shows the first
    [index] characters of the chunk, never more than the chunk has or the
    page takes, all in the one font and fill. *)
Definition follows_chunk {F} (page_chars : list codepoint) (max_demo_cells : Z)
    (fnt : F) (fill : Z * Z * Z * Z) (index : Z) (glyphs : list (glyph F)) : Prop :=
  0 ≤ index ≤ len page_chars
  ∧ index ≤ Z.max 0 max_demo_cells
  ∧ drawn_chars glyphs = take (Z.to_nat index) page_chars
  ∧ Forall (λ g, glyph_font g = fnt ∧ glyph_fill g = fill) glyphs.

(** ** More of the corpus loader *)

(** [extract_from_multiple(targets)], from the point where [printed] has
    been printed and [results] collected: [results += body_extractor(target)]
    for every target, where adding [None] to a list raises [TypeError]. *)
Fixpoint extract_from_multiple_from (h : Loader.host) (self : Loader.PlainDataLoader)
    (printed : list string) (results : list Loader.json) (targets : list string)
    : list string * result (list Loader.json) :=
  match targets with
  | [] => (printed, Ok results)
  | target :: targets' =>
      match Loader.body_extractor h self target with
      | (out, Raise e) => (printed ++ out, Raise e)
      | (out, Ok None) => (printed ++ out, Raise TypeError)
      | (out, Ok (Some body)) =>
          extract_from_multiple_from h self (printed ++ out) (results ++ body) targets'
      end
  end.

Definition extract_from_multiple (h : Loader.host) (self : Loader.PlainDataLoader)
    (targets : list string) : list string * result (list Loader.json) :=
  extract_from_multiple_from h self [] [] targets.

(** Two hosts a dataset cannot tell apart: they agree on the path of the
    dataset, on its entries that are not excluded, and on how values are
    rendered. *)
Definition same_for_dataset (h h' : Loader.host) (self : Loader.PlainDataLoader)
    (configs : Loader.dataset) : Prop :=
  let full_path :=
    Str.path_join (Loader.top_level_path self) (Loader.ds_path configs) in
  Loader.fs h full_path = Loader.fs h' full_path
  ∧ (∀ filename,
       filename ∉ default [] (Loader.ds_excludes configs) →
       Loader.fs h (Str.path_join full_path filename)
       = Loader.fs h' (Str.path_join full_path filename))
  ∧ ∀ v, Loader.render h v = Loader.render h' v.


(** The sample checkout with the excluded file of the directory dataset
    replaced by a readable one. *)
Definition sample_host_with_readme : Loader.host :=
  {| Loader.fs := λ path,
       if bool_decide (path = "./chinese-poetry/song/README.md") then
         Loader.File (Some (Loader.JArr [sample_poem]))
       else Loader.fs sample_host path;
     Loader.render := Loader.render sample_host |}.

(** ** Font discovery *)

(** A path [rglob] yields: [font_file.name], [str(font_file)] and
    [font_file.suffix.lower()]. *)
Record font_file : Type := FontFile {
  ff_name : string;
  ff_path : string;
  ff_suffix : string;
}.

(** What font discovery asks of the machine it runs on.  [expanduser] and
    [Path.home] are taken to succeed. *)
Record machine : Type := Machine {
  (** [Path(dir_path).expanduser().is_dir()] *)
  is_dir : string → bool;
  (** what [Path(dir_path).expanduser().rglob("*")] yields, in order *)
  rglob : string → list font_file;
  (** [os.name == "nt"] *)
  os_is_nt : bool;
  (** [str(Path.home() / rel)] *)
  home_path : string → string;
  (** [Path(font_dir).resolve()], as formatted *)
  resolved : string → string;
}.











(** A machine with two fonts and a note in [./fonts], and nothing else. *)
Definition sample_machine : machine :=
  {| is_dir := λ dir_path, bool_decide (dir_path = "./fonts");
     rglob := λ dir_path,
       if bool_decide (dir_path = "./fonts") then
         [ FontFile "simhei.ttf" "simhei.ttf" ".ttf";
           FontFile "README.txt" "fonts/README.txt" ".txt";
           FontFile "KAITI.TTF" "fonts/KAITI.TTF" ".ttf" ]
       else [];
     os_is_nt := false;
     home_path := λ rel, "/home/user/" +:+ rel;
     resolved := λ font_dir, "/srv/zitie/fonts" |}.

(** ** Fetching the corpus *)

(** An exception raised inside the [try] of [ensure_poetry_repo]:
    [FileNotFoundError], or any other [Exception], with its text. *)
Inductive failure : Type :=
| NoSuchFile
| OtherFailure (text : string).

Inductive attempt (A : Type) : Type :=
| Done (a : A)
| Fails (f : failure).
Arguments Done {A} a.
Arguments Fails {A} f.

(** What [subprocess.run(..., capture_output=True, text=True, check=False)]
    returns. *)
Record completed : Type := Completed {
  returncode : Z;
  stderr : string;
}.

(** What fetching asks of the machine. *)
Record git_host : Type := GitHost {
  (** [str(Path(repo_dir).expanduser())]; [None] when it raises *)
  expanduser : string → option string;
  (** [repo_path.exists()] *)
  path_exists : string → attempt bool;
  (** [repo_path.parent.mkdir(parents=True, exist_ok=True)] *)
  make_parents : string → attempt unit;
  (** [subprocess.run(args, ...)] *)
  run : list string → attempt completed;
}.

Definition POETRY_REPO_URL : string :=
  "https://github.com/chinese-poetry/chinese-poetry.git".

Definition clone_command (repo_path : string) : list string :=
  ["git"; "clone"; POETRY_REPO_URL; repo_path].

Definition pull_command (repo_path : string) : list string :=
  ["git"; "-C"; repo_path; "pull"].

(** The body of the [try] block. *)
Definition fetch_or_update (g : git_host) (repo_path : string) : attempt (bool * string) :=
  match path_exists g repo_path with
  | Fails f => Fails f
  | Done false =>
      match make_parents g repo_path with
      | Fails f => Fails f
      | Done _ =>
          match run g (clone_command repo_path) with
          | Fails f => Fails f
          | Done result =>
              if negb (returncode result =? 0) then
                Done (false, "git clone 失败：" +:+ stderr result)
              else Done (true, "已克隆 chinese-poetry 仓库到：" +:+ repo_path)
          end
      end
  | Done true =>
      match run g (pull_command repo_path) with
      | Fails f => Fails f
      | Done result =>
          if negb (returncode result =? 0) then
            Done (false, "git pull 失败：" +:+ stderr result)
          else Done (true, "已更新 chinese-poetry 仓库：" +:+ repo_path)
      end
  end.

(** [ensure_poetry_repo(repo_dir)]; [None] when it raises, which only the
    expansion of the path, outside the [try], can cause. *)
Definition ensure_poetry_repo (g : git_host) (repo_dir : string) : option (bool * string) :=
  match expanduser g repo_dir with
  | None => None
  | Some repo_path =>
      match fetch_or_update g repo_path with
      | Done outcome => Some outcome
      | Fails NoSuchFile => Some (false, "找不到 git 命令，请确认已在系统中安装 git。")
      | Fails (OtherFailure e) => Some (false, "更新仓库时出错：" +:+ e)
      end
  end.

(** The command that is run: a pull when the path exists, a clone when it
    does not. *)
Definition git_command (present : bool) (repo_path : string) : list string :=
  if present then pull_command repo_path else clone_command repo_path.

(** A machine without git, on which the checkout does not exist yet. *)
Definition sample_git_host : git_host :=
  {| expanduser := λ repo_dir, Some repo_dir;
     path_exists := λ repo_path, Done false;
     make_parents := λ repo_path, Done tt;
     run := λ args, Fails NoSuchFile |}.

(** ** The page of the application

    Streamlit runs the script from top to bottom on every interaction; what
    survives from one run to the next is [st.session_state].  A run is
    modelled from the values its widgets return, on the part of the script
    that generates the sheets and previews them. *)



(** [l[i]]: a negative index counts from the end; [None] is [IndexError]. *)
Definition index {A} (l : list A) (i : Z) : option A :=
  let i := if i <? 0 then i + len l else i in
  if i <? 0 then None else l !! Z.to_nat i.

Section Page.
Context (pil : pillow).














End Page.

(** * Properties *)

(** ** Colour tables *)

(** C10: the grid-colour and text-colour tables return the same triple for
    every name; green is (0,160,0), red is (200,0,0), and every other name,
    known or not, is black. *)
Theorem color_tables_agree (name : string) :
  get_grid_color name = get_text_color name
  ∧ get_grid_color "绿色" = (0, 160, 0)
  ∧ get_grid_color "红色" = (200, 0, 0)
  ∧ (name = "绿色" ∨ name = "红色" ∨ get_grid_color name = (0, 0, 0)).
Proof.
  split; [reflexivity|].
  split; [reflexivity|].
  split; [reflexivity|].
  unfold get_grid_color.
  destruct (decide (name = "绿色")) as [Hg|Hg]; [by left|].
  destruct (decide (name = "红色")) as [Hr|Hr]; [by right; left|].
  by right; right.
Qed.

(** ** Grid drawing *)

Lemma double_sixth_bounds (size : Z) :
  size `div` 3 - 1 ≤ 2 * (size `div` 6) ≤ size `div` 3.
Proof.
  pose proof (Z.div_mod size 6 ltac:(lia)) as H6.
  pose proof (Z.mod_pos_bound size 6 ltac:(lia)) as B6.
  pose proof (Z.div_mod size 3 ltac:(lia)) as H3.
  pose proof (Z.mod_pos_bound size 3 ltac:(lia)) as B3.
  lia.
Qed.

Lemma double_sixth_is_third (size : Z) :
  2 * (size `div` 6) = size `div` 3 ↔ size `mod` 6 < 3.
Proof.
  pose proof (Z.div_mod size 6 ltac:(lia)) as H6.
  pose proof (Z.mod_pos_bound size 6 ltac:(lia)) as B6.
  pose proof (Z.div_mod size 3 ltac:(lia)) as H3.
  pose proof (Z.mod_pos_bound size 3 ltac:(lia)) as B3.
  lia.
Qed.

(** C7, as the code has it: the nested-box style draws the outer rectangle
    and two inset rectangles, at margins [size // 6] and twice that.  The
    second margin is [size // 3] or one less; it is [size // 3] exactly when
    [size mod 6 < 3]. *)
Theorem nested_box_margins (draw : surface) (x y size : Z) (color : rgb) :
  draw_huigongge draw x y size color =
    draw ++ [ Rectangle (x, y, x + size, y + size) color 2;
              inset_rectangle x y size (size `div` 6) color;
              inset_rectangle x y size (2 * (size `div` 6)) color ]
  ∧ size `div` 3 - 1 ≤ 2 * (size `div` 6) ≤ size `div` 3
  ∧ (draw_huigongge draw x y size color = draw ++ nested_box_as_specified x y size color
     ↔ size `mod` 6 < 3).
Proof.
  assert (Hshape :
    draw_huigongge draw x y size color =
      draw ++ [ Rectangle (x, y, x + size, y + size) color 2;
                inset_rectangle x y size (size `div` 6) color;
                inset_rectangle x y size (2 * (size `div` 6)) color ]).
  { unfold draw_huigongge, inset_rectangle.
    rewrite <- !app_assoc. simpl.
    by replace (size `div` 6 * 2) with (2 * (size `div` 6)) by lia. }
  split; [exact Hshape|].
  split; [apply double_sixth_bounds|].
  rewrite Hshape, <- double_sixth_is_third.
  unfold nested_box_as_specified, inset_rectangle. split.
  - intros Heq. apply app_inv_head in Heq.
    injection Heq as Heq _ _ _. lia.
  - intros ->. reflexivity.
Qed.

(** C7, as the specification words it, fails on the cell size of a page of
    five columns and five rows: the inner rectangle is at margin 144, not at
    436 // 3 = 145. *)
Lemma nested_box_not_at_a_third :
  draw_huigongge [] 0 0 436 (0, 0, 0) ≠ nested_box_as_specified 0 0 436 (0, 0, 0).
Proof. vm_compute. discriminate. Qed.

(** ** Font resolution *)

Section FontResolverFacts.
Context (pil : pillow).

Lemma try_path_loads (size : Z) (tried : list string) (path label : string) :
  (try_path pil size tried path label).1 = loads pil size (path, label).
Proof.
  unfold try_path, loads. simpl.
  destruct (truetype pil path size) as [fnt|]; simpl; [|done].
  by destruct (getname pil fnt) as [[family style]|].
Qed.

Lemma try_fallbacks_first (size : Z) (fbs tried : list string) :
  (try_fallbacks pil size tried fbs).1 =
    head (omap (loads pil size) ((λ fb, (fb, fallback_label fb)) <$> fbs)).
Proof.
  revert tried. induction fbs as [|fb fbs IH]; intros tried; [done|].
  simpl. pose proof (try_path_loads size tried fb (fallback_label fb)) as Hfb.
  destruct (try_path pil size tried fb (fallback_label fb)) as [[r|] tried'];
    simpl in Hfb; rewrite <- Hfb; [done|].
  apply IH.
Qed.

Lemma load_font_resolves (font_path : string) (size : Z) :
  load_font pil font_path size = Ok (resolve_as_specified pil font_path size).
Proof.
  unfold load_font, resolve_as_specified, candidates.
  generalize fallbacks. intros fbs.
  destruct (decide (font_path = "")) as [Hempty|Hrequested]; simpl.
  - pose proof (try_fallbacks_first size fbs []) as Hfbs.
    destruct (try_fallbacks pil size [] fbs) as [[r|] tried];
      simpl in Hfbs; by rewrite <- Hfbs.
  - pose proof (try_path_loads size [] font_path "用户选择字体") as Hfirst.
    destruct (try_path pil size [] font_path "用户选择字体") as [[r|] tried];
      simpl in Hfirst; rewrite <- Hfirst; simpl; [done|].
    pose proof (try_fallbacks_first size fbs tried) as Hfbs.
    destruct (try_fallbacks pil size tried fbs) as [[r|] tried'];
      exact (f_equal (λ o, Ok (default (default_font pil) o)) Hfbs).
Qed.

Lemma loads_source (size : Z) (c : string * string) (r : font pil * font_info) :
  loads pil size c = Some r → info_source r.2 = c.2.
Proof.
  unfold loads. intros Hr.
  destruct (truetype pil c.1 size) as [fnt|]; simpl in Hr; [|done].
  destruct (getname pil fnt) as [n|]; simpl in Hr; [|done].
  by injection Hr as <-.
Qed.

End FontResolverFacts.

(** The first element [f] accepts, with everything before it refused. *)
Lemma head_omap_first {A B} (f : A → option B) (l : list A) :
  match head (omap f l) with
  | Some r =>
      ∃ before c after,
        l = before ++ c :: after ∧ Forall (λ c', f c' = None) before ∧ f c = Some r
  | None => Forall (λ c, f c = None) l
  end.
Proof.
  induction l as [|a l IH]; [by constructor|].
  change (omap f (a :: l))
    with (match f a with Some b => b :: omap f l | None => omap f l end).
  destruct (f a) as [b|] eqn:Hfa.
  - by exists (@nil A), a, l.
  - destruct (head (omap f l)) as [r|].
    + destruct IH as (before & c & after & -> & Hbefore & Hc).
      exists (a :: before), c, after. by repeat split; [constructor|].
    + by constructor.
Qed.

(** C8: font resolution never raises.  It returns the first candidate that
    loads, the candidates being the requested path when it is not empty and
    then the fixed fallback names in order, with that candidate's source
    label; when no candidate loads it returns the built-in default font,
    labelled as such. *)
Theorem load_font_never_raises (pil : pillow) (font_path : string) (size : Z) :
  ∃ fnt info,
    load_font pil font_path size = Ok (fnt, info)
    ∧ candidates font_path =
        (if decide (font_path = "") then [] else [(font_path, "用户选择字体")])
        ++ [ ("simkai.ttf", "回退字体（simkai.ttf）");
             ("simhei.ttf", "回退字体（simhei.ttf）");
             ("msyh.ttc", "回退字体（msyh.ttc）") ]
    ∧ ((∃ before c after,
          candidates font_path = before ++ c :: after
          ∧ Forall (λ c', loads pil size c' = None) before
          ∧ loads pil size c = Some (fnt, info)
          ∧ info_source info = c.2)
       ∨ (Forall (λ c, loads pil size c = None) (candidates font_path)
          ∧ fnt = load_default pil
          ∧ info_source info = "Pillow 默认字体")).
Proof.
  destruct (resolve_as_specified pil font_path size) as [fnt info] eqn:Hres.
  exists fnt, info. split; [by rewrite load_font_resolves, Hres|].
  split; [reflexivity|].
  unfold resolve_as_specified in Hres.
  pose proof (head_omap_first (loads pil size) (candidates font_path)) as Hfirst.
  destruct (head (omap (loads pil size) (candidates font_path))) as [r|];
    simpl in Hres.
  - left. subst r. destruct Hfirst as (before & c & after & Hsplit & Hbefore & Hc).
    exists before, c, after. repeat split; try done.
    by apply (loads_source pil size c (fnt, info)).
  - right. split; [done|]. unfold default_font in Hres.
    destruct (getname pil (load_default pil)) as [[family style]|];
      by injection Hres as <- <-.
Qed.

(** ** The corpus loader *)

(** C9, as the code has it: when the identifier is not in the registry,
    [poems_as_text] prints a warning and returns the empty list; when the
    dataset is registered and nothing exists at its path, it prints nothing
    and raises [FileNotFoundError].  Among unavailable datasets, it degrades
    gracefully exactly on the unregistered ones. *)
Theorem poems_as_text_when_unavailable (h : Loader.host)
    (self : Loader.PlainDataLoader) (target : string) :
  Loader.unavailable h self target →
  Loader.poems_as_text h self target =
    match Loader.datasets self !! target with
    | None => ([Loader.not_included target], Ok [])
    | Some _ => ([], Raise FileNotFoundError)
    end
  ∧ (Loader.degrades_gracefully (Loader.poems_as_text h self target)
     ↔ Loader.datasets self !! target = None).
Proof.
  unfold Loader.unavailable, Loader.poems_as_text, Loader.degrades_gracefully.
  destruct (Loader.datasets self !! target) as [configs|]; intros Hmissing.
  - unfold Loader.isfile, Loader.listdir. rewrite Hmissing. simpl.
    split; [done|]. split; [by intros [_ ?]|done].
  - simpl. by repeat split.
Qed.

Lemma poems_as_text_when_unavailable_sample :
  Loader.poems_as_text sample_host sample_loader "yuan" = ([], Raise FileNotFoundError)
  ∧ (Loader.degrades_gracefully (Loader.poems_as_text sample_host sample_loader "yuan")
     ↔ Loader.datasets sample_loader !! "yuan" = None).
Proof.
  apply (poems_as_text_when_unavailable sample_host sample_loader "yuan").
  vm_compute. reflexivity.
Defined.

(** C9, as the specification words it, fails on a dataset that is registered
    and was never fetched: the loader raises instead of returning the empty
    list. *)
Lemma poems_as_text_raises_on_missing_files :
  Loader.unavailable sample_host sample_loader "yuan"
  ∧ ¬ Loader.degrades_gracefully (Loader.poems_as_text sample_host sample_loader "yuan").
Proof.
  split; [vm_compute; reflexivity|].
  intros [Hreturned _]. vm_compute in Hreturned. discriminate.
Qed.

(** The sibling [body_extractor] returns [None], not a list, for an
    identifier that is not in the registry. *)
Lemma body_extractor_unregistered (h : Loader.host) (self : Loader.PlainDataLoader)
    (target : string) :
  Loader.datasets self !! target = None →
  Loader.body_extractor h self target = ([Loader.not_included target], Ok None).
Proof. unfold Loader.body_extractor. by intros ->. Qed.

(** ** Page composition *)

Lemma strip_whitespace_blank (text : list codepoint) :
  Forall (λ c, isspace c = true) text → strip_whitespace text = [].
Proof.
  unfold strip_whitespace.
  induction 1 as [|c text Hc _ IH]; simpl; [done|]. by rewrite Hc.
Qed.

(** C5: a text made of whitespace only, the empty text included, yields no
    page and an empty document, without raising, whatever the other
    parameters are (a grid of zero columns included). *)
Theorem blank_text_is_a_no_op (pil : pillow) (text : list codepoint)
    (grid_type grid_color_name text_color_name demo_level : string)
    (cols rows repeat_each : Z) (font_path : string)
    (show_demo fill_last_page blank_row_after_each : bool) :
  Forall (λ c, isspace c = true) text →
  generate_multi_page_images pil text grid_type grid_color_name text_color_name
    demo_level cols rows repeat_each font_path show_demo fill_last_page
    blank_row_after_each = Ok []
  ∧ images_to_pdf pil <$>
      generate_multi_page_images pil text grid_type grid_color_name text_color_name
        demo_level cols rows repeat_each font_path show_demo fill_last_page
        blank_row_after_each = Ok [].
Proof.
  intros Hblank. unfold generate_multi_page_images.
  rewrite (strip_whitespace_blank text Hblank). by split.
Qed.

Lemma blank_text_is_a_no_op_sample :
  generate_multi_page_images sample_pillow [0x20; 0x0A; 0x3000]%N "米字格" "红色"
    "黑色" "适中" 0 14 1 "" true false false = Ok []
  ∧ images_to_pdf sample_pillow <$>
      generate_multi_page_images sample_pillow [0x20; 0x0A; 0x3000]%N "米字格" "红色"
        "黑色" "适中" 0 14 1 "" true false false = Ok [].
Proof.
  apply (blank_text_is_a_no_op sample_pillow [0x20; 0x0A; 0x3000]%N).
  repeat constructor.
Defined.

Section ComposerFacts.
Context (pil : pillow).

(** A cell composed without demonstration is the cell of an empty page: the
    grid is drawn, and nothing is added to the text layer. *)
Lemma compose_cell_without_demo (page_chars : list codepoint) (grid_type : string)
    (grid_color text_color text_color' : rgb)
    (alpha alpha' cols cell_size offset_x offset_y max_demo_cells : Z) (fnt : font pil)
    (blank_row_after_each : bool) (r : Z) (st : composer pil) (c : Z) :
  compose_cell pil page_chars grid_type grid_color text_color alpha cell_size offset_x
    offset_y max_demo_cells fnt false blank_row_after_each r st c
  = compose_cell pil [] grid_type grid_color text_color' alpha' cell_size offset_x
      offset_y max_demo_cells fnt true blank_row_after_each r st c
  ∧ cmp_text pil
      (compose_cell pil page_chars grid_type grid_color text_color alpha cell_size
         offset_x offset_y max_demo_cells fnt false blank_row_after_each r st c)
    = cmp_text pil st.
Proof.
  unfold compose_cell. simpl.
  by destruct (_ && _ && _).
Qed.

Lemma foldl_agree {S A} (text : S → list (glyph (font pil))) (f g : S → A → S)
    (l : list A) (s : S) :
  (∀ s a, f s a = g s a ∧ text (f s a) = text s) →
  foldl f s l = foldl g s l ∧ text (foldl f s l) = text s.
Proof.
  intros Hstep. revert s. induction l as [|a l IH]; intros s; simpl; [done|].
  destruct (Hstep s a) as [<- Htext]. destruct (IH (f s a)) as [-> ->]. done.
Qed.

Lemma compose_row_without_demo (page_chars : list codepoint) (grid_type : string)
    (grid_color text_color text_color' : rgb)
    (alpha alpha' cols cell_size offset_x offset_y max_demo_cells : Z) (fnt : font pil)
    (blank_row_after_each : bool) (st : composer pil) (r : Z) :
  compose_row pil page_chars grid_type grid_color text_color alpha cols cell_size
    offset_x offset_y max_demo_cells fnt false blank_row_after_each st r
  = compose_row pil [] grid_type grid_color text_color' alpha' cols cell_size
      offset_x offset_y max_demo_cells fnt true blank_row_after_each st r
  ∧ cmp_text pil
      (compose_row pil page_chars grid_type grid_color text_color alpha cols cell_size
         offset_x offset_y max_demo_cells fnt false blank_row_after_each st r)
    = cmp_text pil st.
Proof.
  unfold compose_row.
  apply (foldl_agree (cmp_text pil)
           (compose_cell pil page_chars grid_type grid_color text_color alpha
              cell_size offset_x offset_y max_demo_cells fnt false
              blank_row_after_each r)
           (compose_cell pil [] grid_type grid_color text_color' alpha'
              cell_size offset_x offset_y max_demo_cells fnt true
              blank_row_after_each r)).
  intros s c. by apply compose_cell_without_demo.
Qed.

Lemma compose_rows_without_demo (page_chars : list codepoint) (grid_type : string)
    (grid_color text_color text_color' : rgb)
    (alpha alpha' cols cell_size offset_x offset_y max_demo_cells : Z) (fnt : font pil)
    (blank_row_after_each : bool) (st : composer pil) (rs : list Z) :
  foldl
    (compose_row pil page_chars grid_type grid_color text_color alpha cols cell_size
       offset_x offset_y max_demo_cells fnt false blank_row_after_each) st rs
  = foldl
      (compose_row pil [] grid_type grid_color text_color' alpha' cols cell_size
         offset_x offset_y max_demo_cells fnt true blank_row_after_each) st rs
  ∧ cmp_text pil
      (foldl
         (compose_row pil page_chars grid_type grid_color text_color alpha cols
            cell_size offset_x offset_y max_demo_cells fnt false
            blank_row_after_each) st rs)
    = cmp_text pil st.
Proof.
  apply (foldl_agree (cmp_text pil)
           (compose_row pil page_chars grid_type grid_color text_color alpha cols
              cell_size offset_x offset_y max_demo_cells fnt false
              blank_row_after_each)
           (compose_row pil [] grid_type grid_color text_color' alpha' cols
              cell_size offset_x offset_y max_demo_cells fnt true
              blank_row_after_each)).
  intros s r. by apply compose_row_without_demo.
Qed.

End ComposerFacts.

(** C6: a page rendered with [show_demo] off has nothing drawn on its text
    layer, whatever characters and demonstration level it is given; it is the
    page an empty chunk gives, with any demonstration level and text colour,
    so it shows the grid only.  On a grid with at least one column and one
    row the page is produced. *)
Theorem no_glyph_without_demo (pil : pillow) (page_chars : list codepoint)
    (grid_type grid_color_name text_color_name text_color_name' : string)
    (demo_level demo_level' : string) (cols rows : Z) (font_path : string)
    (blank_row_after_each : bool) :
  cols ≠ 0 → rows ≠ 0 →
  ∃ img,
    generate_single_page_image pil page_chars grid_type grid_color_name
      text_color_name demo_level cols rows font_path false blank_row_after_each
    = Ok img
    ∧ text_layer img = []
    ∧ generate_single_page_image pil [] grid_type grid_color_name
        text_color_name' demo_level' cols rows font_path true blank_row_after_each
      = Ok img.
Proof.
  intros Hcols Hrows. unfold generate_single_page_image, floordiv.
  destruct (decide (cols = 0)) as [?|_]; [done|].
  destruct (decide (rows = 0)) as [?|_]; [done|].
  simpl. rewrite !load_font_resolves. simpl.
  set (cell_size := Z.min _ _).
  destruct (resolve_as_specified pil font_path _) as [fnt info].
  destruct
    (compose_rows_without_demo pil page_chars grid_type
       (get_grid_color grid_color_name) (get_text_color text_color_name)
       (get_text_color text_color_name') (get_demo_alpha demo_level)
       (get_demo_alpha demo_level') cols cell_size
       ((PAGE_WIDTH - cell_size * cols) `div` 2)
       ((PAGE_HEIGHT - cell_size * rows) `div` 2)
       (cols * demo_rows_per_page rows blank_row_after_each) fnt
       blank_row_after_each (Composer pil [] [] 0) (range rows))
    as [Hsame Htext].
  eexists. split; [reflexivity|]. simpl.
  split; [exact Htext|].
  by rewrite <- Hsame, Htext.
Qed.

Lemma no_glyph_without_demo_sample :
  ∃ img,
    generate_single_page_image sample_pillow [0x6C38; 0x548C]%N "田字格" "红色" "黑色"
      "非常深" 10 14 "" false true = Ok img
    ∧ text_layer img = []
    ∧ generate_single_page_image sample_pillow [] "田字格" "红色" "绿色" "适中" 10 14
        "" true true = Ok img.
Proof.
  apply (no_glyph_without_demo sample_pillow [0x6C38; 0x548C]%N "田字格" "红色"
           "黑色" "绿色" "非常深" "适中" 10 14 "" true); lia.
Defined.

(** ** Pagination *)

Lemma ceil_div_bounds (a b : Z) :
  0 < b → (ceil_div a b - 1) * b < a ≤ ceil_div a b * b.
Proof.
  intros Hb. unfold ceil_div.
  pose proof (Z.div_mod (- a) b ltac:(lia)) as Hdiv.
  pose proof (Z.mod_pos_bound (- a) b Hb) as Hmod.
  nia.
Qed.

Lemma ceil_div_half (rows : Z) : rows ≤ 2 * ceil_div rows 2 < rows + 2.
Proof. pose proof (ceil_div_bounds rows 2 ltac:(lia)). lia. Qed.

(** A grid with at least one column and one row has room for a character. *)
Lemma page_capacity_pos (cols rows : Z) (blank : bool) :
  1 ≤ cols → 1 ≤ rows → 0 < page_capacity cols rows blank.
Proof.
  intros Hcols Hrows. unfold page_capacity, demo_rows_per_page.
  pose proof (ceil_div_half rows). destruct blank; nia.
Qed.

Lemma ceil_div_exact (a b : Z) :
  0 < b → (ceil_div a b * b = a ↔ a `mod` b = 0).
Proof.
  intros Hb. unfold ceil_div.
  pose proof (Z.div_mod (- a) b ltac:(lia)) as Hdiv.
  assert (- (- a) `div` b * b = a ↔ (- a) `mod` b = 0) as -> by lia.
  split; intros Hzero.
  - rewrite <- (Z.opp_involutive a). apply Z.mod_opp_l_z; [lia|done].
  - apply Z.mod_opp_l_z; [lia|done].
Qed.

Lemma len_pos {A} (l : list A) : l ≠ [] → 0 < len l.
Proof. destruct l; [done|]. unfold len. simpl. lia. Qed.

(** A slice between bounds that are not negative is a [take] of a [drop]. *)
Lemma slice_take_drop {A} (l : list A) (start width : Z) :
  0 ≤ start → 0 ≤ width →
  slice l start (start + width) = take (Z.to_nat width) (drop (Z.to_nat start) l).
Proof.
  intros Hstart Hwidth. unfold slice, clip, len.
  destruct (Z.ltb_spec start 0) as [?|_]; [lia|].
  destruct (Z.ltb_spec (start + width) 0) as [?|_]; [lia|].
  set (n := length l).
  destruct (decide (Z.of_nat n ≤ start)) as [Hout|Hin].
  - rewrite !drop_ge by lia. by rewrite !take_nil.
  - rewrite (Z.min_l start) by lia.
    destruct (decide (start + width ≤ Z.of_nat n)) as [Hfits|Hover].
    + rewrite Z.min_l by lia. f_equal. lia.
    + rewrite Z.min_r by lia.
      rewrite !take_ge; [done|rewrite length_drop; lia|rewrite length_drop; lia].
Qed.

Section PaginatorFacts.
Context (chars : list codepoint) (capacity : Z).
Hypothesis Hchars : chars ≠ [].
Hypothesis Hcapacity : 0 < capacity.

Local Abbreviation piece := (stream_slice chars capacity).

Lemma page_slice_piece (i : nat) :
  page_slice chars capacity (Z.of_nat i) = piece i.
Proof.
  unfold page_slice. rewrite slice_take_drop by lia. unfold stream_slice.
  by rewrite Z2Nat.inj_mul, Nat2Z.id by lia.
Qed.

Lemma piece_length (i : nat) :
  Z.of_nat (length (piece i)) =
    Z.min capacity (Z.max 0 (len chars - Z.of_nat i * capacity)).
Proof. unfold stream_slice, len. rewrite length_take, length_drop. lia. Qed.

Lemma total_pages_ok :
  total_pages chars capacity = Ok (ceil_div (len chars) capacity)
  ∧ 1 ≤ ceil_div (len chars) capacity.
Proof.
  pose proof (len_pos chars Hchars) as Hlen.
  pose proof (ceil_div_bounds (len chars) capacity Hcapacity) as Hceil.
  assert (1 ≤ ceil_div (len chars) capacity) as Hone by nia.
  split; [|done]. unfold total_pages.
  destruct (decide (capacity = 0)) as [?|_]; [lia|].
  by rewrite Z.max_r.
Qed.

(** A page before the last is full. *)
Lemma piece_full (i : nat) :
  Z.of_nat i + 1 < ceil_div (len chars) capacity →
  Z.of_nat (length (piece i)) = capacity.
Proof.
  intros Hi. rewrite piece_length.
  pose proof (ceil_div_bounds (len chars) capacity Hcapacity) as Hceil. nia.
Qed.

(** The last page is not empty, and not longer than a page. *)
Lemma piece_last (i : nat) :
  Z.of_nat i + 1 = ceil_div (len chars) capacity →
  Z.of_nat (length (piece i)) = len chars - Z.of_nat i * capacity
  ∧ 0 < Z.of_nat (length (piece i)) ≤ capacity.
Proof.
  intros Hi. rewrite piece_length.
  pose proof (ceil_div_bounds (len chars) capacity Hcapacity) as Hceil. nia.
Qed.

Lemma page_chars_of_unfilled (i : nat) :
  page_chars_of chars capacity false (Z.of_nat i) = piece i.
Proof. unfold page_chars_of, fill_page. by rewrite page_slice_piece. Qed.

Lemma page_chars_of_full (fill : bool) (i : nat) :
  Z.of_nat (length (piece i)) = capacity →
  page_chars_of chars capacity fill (Z.of_nat i) = piece i.
Proof.
  intros Hfull. unfold page_chars_of, fill_page. rewrite page_slice_piece. unfold len.
  rewrite Hfull, Z.ltb_irrefl. by rewrite andb_false_r.
Qed.

Lemma page_chars_of_filled (i : nat) (last_ch : codepoint) :
  last (piece i) = Some last_ch →
  page_chars_of chars capacity true (Z.of_nat i) =
    piece i ++ replicate (Z.to_nat capacity - length (piece i)) last_ch.
Proof.
  intros Hlast. unfold page_chars_of, fill_page. rewrite page_slice_piece, Hlast.
  unfold len.
  assert (piece i ≠ []) as Hne by (intros Hnil; by rewrite Hnil in Hlast).
  rewrite (bool_decide_eq_false_2 _ Hne). simpl.
  destruct (Z.ltb_spec (Z.of_nat (length (piece i))) capacity) as [Hshort|Hfull]; simpl.
  - do 2 f_equal. lia.
  - pose proof (piece_length i) as Hlen.
    replace (Z.to_nat capacity - length (piece i))%nat with 0%nat by lia.
    by rewrite app_nil_r.
Qed.

Lemma paginate_pages (cols rows : Z) (fill blank : bool) :
  page_capacity cols rows blank = capacity →
  paginate chars cols rows fill blank =
    Ok (page_chars_of chars capacity fill <$> range (ceil_div (len chars) capacity)).
Proof.
  intros Hcap. unfold paginate. rewrite Hcap.
  destruct total_pages_ok as [-> _]. done.
Qed.

Lemma pages_lookup (fill : bool) (i : nat) :
  Z.of_nat i < ceil_div (len chars) capacity →
  (page_chars_of chars capacity fill <$> range (ceil_div (len chars) capacity)) !! i
    = Some (page_chars_of chars capacity fill (Z.of_nat i)).
Proof.
  intros Hi. unfold range. rewrite list_lookup_fmap, lookup_seqZ_lt by done.
  simpl. by rewrite Z.add_0_l.
Qed.

Lemma pages_length (fill : bool) :
  len (page_chars_of chars capacity fill <$> range (ceil_div (len chars) capacity))
    = ceil_div (len chars) capacity.
Proof.
  destruct total_pages_ok as [_ Hone].
  unfold len at 1. unfold range. rewrite length_fmap, length_seqZ. lia.
Qed.

End PaginatorFacts.

Lemma total_length_app (pages pages' : list (list codepoint)) :
  total_length (pages ++ pages') = total_length pages + total_length pages'.
Proof. unfold total_length. rewrite sum_list_with_app. lia. Qed.

(** Pages that are all full. *)
Lemma total_length_full (g : Z → list codepoint) (capacity : Z) (k : nat) :
  (∀ i : nat, (i < k)%nat → len (g (Z.of_nat i)) = capacity) →
  total_length (g <$> range (Z.of_nat k)) = Z.of_nat k * capacity.
Proof.
  unfold range. induction k as [|k IH]; intros Hfull; [done|].
  rewrite seqZ_S, fmap_app, total_length_app, IH by (intros; apply Hfull; lia).
  unfold total_length at 1. simpl. rewrite Z.add_0_l, Nat.add_0_r.
  fold (len (g (Z.of_nat k))). rewrite Hfull by lia. lia.
Qed.

Section ChunkTotals.
Context (chars : list codepoint) (capacity : Z).
Hypothesis Hchars : chars ≠ [].
Hypothesis Hcapacity : 0 < capacity.

(** The lengths of the pages add up to the length of the stream, or to
    whole pages when the last one is filled. *)
Lemma total_length_pages (fill : bool) :
  total_length
    (page_chars_of chars capacity fill <$> range (ceil_div (len chars) capacity))
  = if fill then ceil_div (len chars) capacity * capacity else len chars.
Proof.
  destruct (total_pages_ok chars capacity Hchars Hcapacity) as [_ Hone].
  set (total := ceil_div (len chars) capacity) in *.
  assert (∃ k : nat, total = Z.of_nat (S k)) as [k Hk]
    by (exists (Z.to_nat (total - 1)); lia).
  rewrite Hk. unfold range. rewrite seqZ_S, fmap_app, total_length_app.
  fold (range (Z.of_nat k)). rewrite (total_length_full _ capacity).
  - rewrite Z.add_0_l. unfold total_length at 1. simpl. rewrite Nat.add_0_r.
    destruct (piece_last chars capacity Hcapacity k) as [Hlen Hbounds];
      [fold total; lia|].
    destruct fill.
    + destruct (last (stream_slice chars capacity k)) as [last_ch|] eqn:Hlast.
      * rewrite (page_chars_of_filled chars capacity Hcapacity k last_ch Hlast).
        rewrite length_app, length_replicate. lia.
      * apply last_None in Hlast. rewrite Hlast in Hbounds. simpl in Hbounds. lia.
    + rewrite page_chars_of_unfilled by done. lia.
  - intros i Hi.
    assert (Z.of_nat (length (stream_slice chars capacity i)) = capacity) as Hfull
      by (apply piece_full; [done|fold total; lia]).
    by rewrite page_chars_of_full.
Qed.

End ChunkTotals.

(** C1: for a stream that is not empty and a capacity above zero, the
    capacity is [cols] times the rows that carry characters ([rows], or the
    ceiling of [rows/2] when every other row is left blank); the paginator
    returns [max(1, ceil(len/capacity))] pages; and the chunk sliced for page
    [i] is [stream[i·capacity : (i+1)·capacity]].  The page is rendered from
    that chunk after the padding of the last page, which only appends to it,
    and from the chunk itself when the last page is not filled. *)
Theorem paginate_chunks (chars : list codepoint) (cols rows : Z) (fill blank : bool) :
  chars ≠ [] → 0 < page_capacity cols rows blank →
  page_capacity cols rows blank = cols * (if blank then ceil_div rows 2 else rows)
  ∧ rows ≤ 2 * ceil_div rows 2 < rows + 2
  ∧ ∃ total pages,
      total = Z.max 1 (ceil_div (len chars) (page_capacity cols rows blank))
      ∧ (total - 1) * page_capacity cols rows blank < len chars
          ≤ total * page_capacity cols rows blank
      ∧ paginate chars cols rows fill blank = Ok pages
      ∧ len pages = total
      ∧ ∀ i : nat, Z.of_nat i < total →
          page_slice chars (page_capacity cols rows blank) (Z.of_nat i)
            = stream_slice chars (page_capacity cols rows blank) i
          ∧ ∃ chunk,
              pages !! i = Some chunk
              ∧ chunk
                  = fill_page fill (page_capacity cols rows blank)
                      (stream_slice chars (page_capacity cols rows blank) i)
              ∧ stream_slice chars (page_capacity cols rows blank) i `prefix_of` chunk
              ∧ (fill = false →
                 chunk = stream_slice chars (page_capacity cols rows blank) i).
Proof.
  intros Hchars Hcap.
  split; [reflexivity|]. split; [apply ceil_div_half|].
  set (capacity := page_capacity cols rows blank) in *.
  destruct (total_pages_ok chars capacity Hchars Hcap) as [_ Hone].
  exists (ceil_div (len chars) capacity),
    (page_chars_of chars capacity fill <$> range (ceil_div (len chars) capacity)).
  split; [by rewrite Z.max_r|].
  split; [by apply ceil_div_bounds|].
  split; [by apply paginate_pages|].
  split; [by apply pages_length|].
  intros i Hi. split; [by apply page_slice_piece|].
  exists (page_chars_of chars capacity fill (Z.of_nat i)).
  split; [by apply pages_lookup|].
  split; [unfold page_chars_of; by rewrite page_slice_piece|].
  destruct fill.
  - split; [|done].
    destruct (last (stream_slice chars capacity i)) as [last_ch|] eqn:Hlast.
    + rewrite (page_chars_of_filled chars capacity Hcap i last_ch Hlast).
      by apply prefix_app_r.
    + apply last_None in Hlast. rewrite Hlast. apply prefix_nil.
  - by rewrite page_chars_of_unfilled.
Qed.

Lemma paginate_chunks_sample :
  page_capacity 5 1 false = 5 * (if false then ceil_div 1 2 else 1)
  ∧ 1 ≤ 2 * ceil_div 1 2 < 1 + 2
  ∧ ∃ total pages,
      total = Z.max 1 (ceil_div (len [65; 65; 65; 66; 66; 66]%N) (page_capacity 5 1 false))
      ∧ (total - 1) * page_capacity 5 1 false < len [65; 65; 65; 66; 66; 66]%N
          ≤ total * page_capacity 5 1 false
      ∧ paginate [65; 65; 65; 66; 66; 66]%N 5 1 false false = Ok pages
      ∧ len pages = total
      ∧ ∀ i : nat, Z.of_nat i < total →
          page_slice [65; 65; 65; 66; 66; 66]%N (page_capacity 5 1 false) (Z.of_nat i)
            = stream_slice [65; 65; 65; 66; 66; 66]%N (page_capacity 5 1 false) i
          ∧ ∃ chunk,
              pages !! i = Some chunk
              ∧ chunk
                  = fill_page false (page_capacity 5 1 false)
                      (stream_slice [65; 65; 65; 66; 66; 66]%N (page_capacity 5 1 false) i)
              ∧ stream_slice [65; 65; 65; 66; 66; 66]%N (page_capacity 5 1 false) i
                  `prefix_of` chunk
              ∧ (false = false →
                 chunk
                   = stream_slice [65; 65; 65; 66; 66; 66]%N (page_capacity 5 1 false) i).
Proof.
  apply (paginate_chunks [65; 65; 65; 66; 66; 66]%N 5 1 false false);
    [discriminate|reflexivity].
Defined.

(** C2: with [fill_last_page] on, every page before the last is the slice
    of the stream unchanged, and the last page is its slice followed by its
    last character repeated up to the capacity, so it has exactly that many
    characters (nothing is added when the slice is full).  The stream
    A,A,A,B,B,B at capacity 5 gives A,A,A,B,B and B,B,B,B,B. *)
Theorem fill_last_page_pads (chars : list codepoint) (cols rows : Z) (blank : bool) :
  chars ≠ [] → 0 < page_capacity cols rows blank →
  (∃ pages,
     paginate chars cols rows true blank = Ok pages
     ∧ ∀ (i : nat) (chunk : list codepoint),
         pages !! i = Some chunk →
         (S i < length pages →
          chunk = stream_slice chars (page_capacity cols rows blank) i)%nat
         ∧ (S i = length pages →
            ∃ last_ch,
              last (stream_slice chars (page_capacity cols rows blank) i) = Some last_ch
              ∧ chunk =
                  stream_slice chars (page_capacity cols rows blank) i
                  ++ replicate
                       (Z.to_nat (page_capacity cols rows blank)
                        - length (stream_slice chars (page_capacity cols rows blank) i))%nat
                       last_ch
              ∧ len chunk = page_capacity cols rows blank))
  ∧ paginate [65; 65; 65; 66; 66; 66]%N 5 1 true false
    = Ok [[65; 65; 65; 66; 66]; [66; 66; 66; 66; 66]]%N.
Proof.
  intros Hchars Hcap. split; [|reflexivity].
  set (capacity := page_capacity cols rows blank) in *.
  destruct (total_pages_ok chars capacity Hchars Hcap) as [_ Hone].
  exists (page_chars_of chars capacity true <$> range (ceil_div (len chars) capacity)).
  split; [by apply paginate_pages|].
  intros i chunk Hchunk.
  pose proof (pages_length chars capacity Hchars Hcap true) as Hpages.
  unfold len in Hpages at 1.
  assert (Z.of_nat i < ceil_div (len chars) capacity) as Hi.
  { apply lookup_lt_Some in Hchunk. lia. }
  rewrite pages_lookup in Hchunk by done. injection Hchunk as <-.
  split.
  - intros Hbefore. apply page_chars_of_full; [done..|].
    apply piece_full; [done|lia].
  - intros Hlast.
    destruct (piece_last chars capacity Hcap i) as [Hlen Hbounds]; [lia|].
    destruct (last (stream_slice chars capacity i)) as [last_ch|] eqn:Hlast_ch.
    + exists last_ch. split; [done|].
      rewrite (page_chars_of_filled chars capacity Hcap i last_ch Hlast_ch).
      split; [done|]. unfold len. rewrite length_app, length_replicate. lia.
    + apply last_None in Hlast_ch. rewrite Hlast_ch in Hbounds. simpl in Hbounds. lia.
Qed.

Lemma fill_last_page_pads_sample :
  (∃ pages,
     paginate [0x6C38; 0x548C; 0x4E5D]%N 2 1 true false = Ok pages
     ∧ ∀ (i : nat) (chunk : list codepoint),
         pages !! i = Some chunk →
         (S i < length pages →
          chunk = stream_slice [0x6C38; 0x548C; 0x4E5D]%N (page_capacity 2 1 false) i)%nat
         ∧ (S i = length pages →
            ∃ last_ch,
              last (stream_slice [0x6C38; 0x548C; 0x4E5D]%N (page_capacity 2 1 false) i)
                = Some last_ch
              ∧ chunk =
                  stream_slice [0x6C38; 0x548C; 0x4E5D]%N (page_capacity 2 1 false) i
                  ++ replicate
                       (Z.to_nat (page_capacity 2 1 false)
                        - length
                            (stream_slice [0x6C38; 0x548C; 0x4E5D]%N
                               (page_capacity 2 1 false) i))%nat
                       last_ch
              ∧ len chunk = page_capacity 2 1 false))
  ∧ paginate [65; 65; 65; 66; 66; 66]%N 5 1 true false
    = Ok [[65; 65; 65; 66; 66]; [66; 66; 66; 66; 66]]%N.
Proof.
  apply (fill_last_page_pads [0x6C38; 0x548C; 0x4E5D]%N 2 1 false);
    [discriminate|reflexivity].
Defined.

(** C3, as the code has it: the chunks are together at least as long as
    the stream, and exactly as long when [fill_last_page] is off; they are
    exactly as long precisely when it is off or the capacity divides the
    length of the stream. *)
Theorem chunk_lengths_cover_stream (chars : list codepoint) (cols rows : Z)
    (fill blank : bool) :
  chars ≠ [] → 0 < page_capacity cols rows blank →
  ∃ pages,
    paginate chars cols rows fill blank = Ok pages
    ∧ len chars ≤ total_length pages
    ∧ (fill = false → total_length pages = len chars)
    ∧ (total_length pages = len chars
       ↔ fill = false ∨ len chars `mod` page_capacity cols rows blank = 0).
Proof.
  intros Hchars Hcap.
  set (capacity := page_capacity cols rows blank) in *.
  exists (page_chars_of chars capacity fill <$> range (ceil_div (len chars) capacity)).
  split; [by apply paginate_pages|].
  rewrite (total_length_pages chars capacity Hchars Hcap fill).
  pose proof (ceil_div_bounds (len chars) capacity Hcap) as Hceil.
  pose proof (ceil_div_exact (len chars) capacity Hcap) as Hexact.
  destruct fill.
  - split; [lia|]. split; [done|]. rewrite Hexact.
    split; [by right|by intros [?|?]].
  - split; [lia|]. split; [done|]. split; [by left|done].
Qed.

Lemma chunk_lengths_cover_stream_sample :
  ∃ pages,
    paginate [65; 65; 65; 66; 66; 66]%N 5 1 true false = Ok pages
    ∧ len [65; 65; 65; 66; 66; 66]%N ≤ total_length pages
    ∧ (true = false → total_length pages = len [65; 65; 65; 66; 66; 66]%N)
    ∧ (total_length pages = len [65; 65; 65; 66; 66; 66]%N
       ↔ true = false ∨ len [65; 65; 65; 66; 66; 66]%N `mod` page_capacity 5 1 false = 0).
Proof.
  apply (chunk_lengths_cover_stream [65; 65; 65; 66; 66; 66]%N 5 1 true false);
    [discriminate|reflexivity].
Defined.

(** C3, as the specification words it, fails on a stream that fills its
    last page: with [fill_last_page] on nothing is added, and the chunks are
    exactly as long as the stream. *)
Lemma full_last_page_is_not_padded :
  ∃ pages,
    paginate [65; 65; 65; 65; 65]%N 5 1 true false = Ok pages
    ∧ ¬ covers_stream_with_equality_iff_unfilled [65; 65; 65; 65; 65]%N true pages.
Proof.
  exists [[65; 65; 65; 65; 65]%N]. split; [reflexivity|].
  intros [_ Hiff]. assert (true = false) as Habsurd by (apply Hiff; reflexivity).
  discriminate.
Qed.

(** ** The character stream *)

Lemma layout_chars_from (acc chars : list codepoint) (repeat : Z) :
  foldl (λ result ch, result ++ replicate (Z.to_nat repeat) ch) acc chars
  = acc ++ concat ((λ ch, replicate (Z.to_nat repeat) ch) <$> chars).
Proof.
  revert acc. induction chars as [|ch chars IH]; intros acc; simpl.
  - by rewrite app_nil_r.
  - by rewrite IH, <- app_assoc.
Qed.

Lemma layout_chars_concat (chars : list codepoint) (repeat : Z) :
  layout_chars chars repeat
  = concat ((λ ch, replicate (Z.to_nat repeat) ch) <$> chars).
Proof. unfold layout_chars. by rewrite layout_chars_from. Qed.

Lemma repeated_length (chars : list codepoint) (n : nat) :
  length (concat ((λ ch, replicate n ch) <$> chars)) = (n * length chars)%nat.
Proof.
  induction chars as [|ch chars IH]; csimpl; [lia|].
  rewrite length_app, length_replicate, IH. lia.
Qed.

(** Position [k] of the repeated stream holds character [k / n] of the
    stream it was made from. *)
Lemma repeated_lookup (chars : list codepoint) (n k : nat) :
  (0 < n)%nat →
  concat ((λ ch, replicate n ch) <$> chars) !! k = chars !! (k `div` n)%nat.
Proof.
  intros Hn. revert k. induction chars as [|ch chars IH]; intros k; csimpl; [done|].
  destruct (decide (k < n)%nat) as [Hin|Hout].
  - rewrite lookup_app_l by (by rewrite length_replicate).
    rewrite Nat.div_small by done. simpl. by apply lookup_replicate_2.
  - rewrite lookup_app_r by (rewrite length_replicate; lia).
    rewrite length_replicate, IH.
    replace (k `div` n)%nat with (S ((k - n) `div` n)).
    + done.
    + replace k with ((k - n) + 1 * n)%nat at 2 by lia.
      rewrite Nat.div_add by lia. lia.
Qed.

Lemma strip_whitespace_elem (text : list codepoint) (ch : codepoint) :
  ch ∈ strip_whitespace text ↔ ch ∈ text ∧ isspace ch = false.
Proof.
  unfold strip_whitespace. rewrite !list_elem_of_In, filter_In.
  by rewrite negb_true_iff.
Qed.

Lemma strip_whitespace_sublist (text : list codepoint) :
  strip_whitespace text `sublist_of` text.
Proof.
  unfold strip_whitespace. induction text as [|ch text IH]; simpl; [done|].
  destruct (isspace ch); simpl; by constructor.
Qed.

(** C4: for a repeat count of at least one, the character stream is the
    text without its whitespace characters, each remaining character
    repeated [repeat_each] times in a row and the characters kept in the
    order of the text; it is the stream the generator paginates.  The text
    AB repeated three times is A,A,A,B,B,B. *)
Theorem character_stream (pil : pillow) (text : list codepoint)
    (grid_type grid_color_name text_color_name demo_level : string)
    (cols rows repeat_each : Z) (font_path : string)
    (show_demo fill_last_page blank_row_after_each : bool) :
  1 ≤ repeat_each →
  layout_chars (strip_whitespace text) repeat_each
    = concat ((λ ch, replicate (Z.to_nat repeat_each) ch) <$> strip_whitespace text)
  ∧ (∀ ch, ch ∈ strip_whitespace text ↔ ch ∈ text ∧ isspace ch = false)
  ∧ strip_whitespace text `sublist_of` text
  ∧ len (layout_chars (strip_whitespace text) repeat_each)
      = repeat_each * len (strip_whitespace text)
  ∧ (∀ k : nat,
       layout_chars (strip_whitespace text) repeat_each !! k
       = strip_whitespace text !! (k `div` Z.to_nat repeat_each)%nat)
  ∧ generate_multi_page_images pil text grid_type grid_color_name text_color_name
      demo_level cols rows repeat_each font_path show_demo fill_last_page
      blank_row_after_each
    = (if bool_decide (layout_chars (strip_whitespace text) repeat_each = []) then Ok []
       else
         pages ← paginate (layout_chars (strip_whitespace text) repeat_each) cols rows
                   fill_last_page blank_row_after_each;
         for_each
           (λ page_chars,
              generate_single_page_image pil page_chars grid_type grid_color_name
                text_color_name demo_level cols rows font_path show_demo
                blank_row_after_each)
           pages)
  ∧ layout_chars (strip_whitespace [65; 66]%N) 3 = [65; 65; 65; 66; 66; 66]%N.
Proof.
  intros Hrepeat.
  split; [apply layout_chars_concat|].
  split; [apply strip_whitespace_elem|].
  split; [apply strip_whitespace_sublist|].
  assert (len (layout_chars (strip_whitespace text) repeat_each)
          = repeat_each * len (strip_whitespace text)) as Hlen.
  { unfold len. rewrite layout_chars_concat, repeated_length. lia. }
  split; [exact Hlen|].
  split; [intros k; rewrite layout_chars_concat; apply repeated_lookup; lia|].
  split; [|reflexivity].
  unfold generate_multi_page_images.
  destruct (strip_whitespace text) as [|ch chars] eqn:Hstrip; [done|].
  rewrite bool_decide_eq_false_2 by done.
  rewrite bool_decide_eq_false_2; [done|].
  intros Hnil. rewrite Hnil in Hlen. unfold len in Hlen. simpl in Hlen. lia.
Qed.

Lemma character_stream_sample :
  layout_chars (strip_whitespace [0x6C38; 0x20; 0x548C; 0x0A]%N) 2
    = concat ((λ ch, replicate (Z.to_nat 2) ch)
                <$> strip_whitespace [0x6C38; 0x20; 0x548C; 0x0A]%N)
  ∧ (∀ ch, ch ∈ strip_whitespace [0x6C38; 0x20; 0x548C; 0x0A]%N
           ↔ ch ∈ [0x6C38; 0x20; 0x548C; 0x0A]%N ∧ isspace ch = false)
  ∧ strip_whitespace [0x6C38; 0x20; 0x548C; 0x0A]%N
      `sublist_of` [0x6C38; 0x20; 0x548C; 0x0A]%N
  ∧ len (layout_chars (strip_whitespace [0x6C38; 0x20; 0x548C; 0x0A]%N) 2)
      = 2 * len (strip_whitespace [0x6C38; 0x20; 0x548C; 0x0A]%N)
  ∧ (∀ k : nat,
       layout_chars (strip_whitespace [0x6C38; 0x20; 0x548C; 0x0A]%N) 2 !! k
       = strip_whitespace [0x6C38; 0x20; 0x548C; 0x0A]%N !! (k `div` Z.to_nat 2)%nat)
  ∧ generate_multi_page_images sample_pillow [0x6C38; 0x20; 0x548C; 0x0A]%N "田字格"
      "红色" "黑色" "适中" 10 14 2 "" true false false
    = (if bool_decide
            (layout_chars (strip_whitespace [0x6C38; 0x20; 0x548C; 0x0A]%N) 2 = [])
       then Ok []
       else
         pages ← paginate (layout_chars (strip_whitespace [0x6C38; 0x20; 0x548C; 0x0A]%N) 2)
                   10 14 false false;
         for_each
           (λ page_chars,
              generate_single_page_image sample_pillow page_chars "田字格" "红色"
                "黑色" "适中" 10 14 "" true false)
           pages)
  ∧ layout_chars (strip_whitespace [65; 66]%N) 3 = [65; 65; 65; 66; 66; 66]%N.
Proof.
  apply (character_stream sample_pillow [0x6C38; 0x20; 0x548C; 0x0A]%N "田字格"
           "红色" "黑色" "适中" 10 14 2 "" true false false).
  lia.
Defined.

(** * Further properties of the code *)

(** ** Grid styles *)

Lemma cell_fractions (size : Z) :
  0 ≤ size →
  0 ≤ size `div` 2 ≤ size
  ∧ 0 ≤ size `div` 3 ∧ 2 * (size `div` 3) ≤ size
  ∧ 0 ≤ size `div` 6 ∧ 4 * (size `div` 6) ≤ size.
Proof.
  intros Hsize.
  pose proof (Z.div_mod size 2 ltac:(lia)).
  pose proof (Z.mod_pos_bound size 2 ltac:(lia)).
  pose proof (Z.div_mod size 3 ltac:(lia)).
  pose proof (Z.mod_pos_bound size 3 ltac:(lia)).
  pose proof (Z.div_mod size 6 ltac:(lia)).
  pose proof (Z.mod_pos_bound size 6 ltac:(lia)).
  lia.
Qed.

(** Whatever the style, a cell of a size that is not negative is drawn by
    appending primitives that stay inside the cell. *)
Lemma draw_grid_appends (draw : surface) (x y size : Z) (grid_type : string)
    (color : rgb) :
  0 ≤ size →
  ∃ added,
    draw_grid draw x y size grid_type color = draw ++ added
    ∧ Forall (prim_within x y (x + size) (y + size)) added.
Proof.
  intros Hsize. pose proof (cell_fractions size Hsize) as Hfrac.
  unfold draw_grid, draw_tianzige, draw_mizige, draw_huigongge, draw_square,
    draw_jiugongge.
  repeat case_decide; rewrite <- ?app_assoc; simpl;
    (eexists; split; [reflexivity|]); repeat constructor; simpl; lia.
Qed.

(** X1: every grid style, the fallback for unknown names included, leaves
    what was drawn before untouched and appends the outer rectangle of the
    cell, two pixels wide, followed by inner lines and rectangles that are one
    pixel wide, of the same colour and, for a size that is not negative,
    inside the cell with their corners in order. *)
Theorem draw_grid_stays_in_cell (draw : surface) (x y size : Z) (grid_type : string)
    (color : rgb) :
  0 ≤ size →
  ∃ inner,
    draw_grid draw x y size grid_type color
      = draw ++ Rectangle (x, y, x + size, y + size) color 2 :: inner
    ∧ Forall (prim_within x y (x + size) (y + size)) inner
    ∧ Forall (λ p, prim_color p = color) inner
    ∧ Forall (λ p, match p with Rectangle _ _ w | Line _ _ w => w = 1 end) inner
    ∧ (length inner ≤ 4)%nat.
Proof.
  intros Hsize. pose proof (cell_fractions size Hsize) as Hfrac.
  unfold draw_grid, draw_tianzige, draw_mizige, draw_huigongge, draw_square,
    draw_jiugongge.
  repeat case_decide; rewrite <- ?app_assoc; simpl;
    (eexists; split; [reflexivity|]);
    (split; [repeat constructor; simpl; lia|]);
    (split; [by repeat constructor|]);
    (split; [by repeat constructor|]); simpl; lia.
Qed.

Lemma draw_grid_stays_in_cell_sample :
  ∃ inner,
    draw_grid [] 150 250 218 "九宫格" (200, 0, 0)
      = [] ++ Rectangle (150, 250, 150 + 218, 250 + 218) (200, 0, 0) 2 :: inner
    ∧ Forall (prim_within 150 250 (150 + 218) (250 + 218)) inner
    ∧ Forall (λ p, prim_color p = (200, 0, 0)) inner
    ∧ Forall (λ p, match p with Rectangle _ _ w | Line _ _ w => w = 1 end) inner
    ∧ (length inner ≤ 4)%nat.
Proof. apply (draw_grid_stays_in_cell [] 150 250 218 "九宫格" (200, 0, 0)). lia. Defined.

(** ** Demonstration levels *)

(** X2: whatever the level name, the alpha is a valid channel value, between
    0 and 255; it is 0, an invisible glyph, only for the level named so. *)
Theorem demo_alpha_in_range (level : string) :
  0 ≤ get_demo_alpha level ≤ 255
  ∧ (get_demo_alpha level = 0 ↔ level = "白色（不可见）").
Proof.
  unfold get_demo_alpha.
  destruct (demo_alpha_mapping !! level) as [alpha|] eqn:Hlevel; simpl.
  - apply elem_of_list_to_map_2 in Hlevel.
    rewrite !elem_of_cons, elem_of_nil in Hlevel.
    destruct_or!; try done; simplify_eq; (split; [lia|]);
      (split; [first [done|lia] | first [done|discriminate]]).
  - split; [lia|]. split; [lia|]. intros ->. by vm_compute in Hlevel.
Qed.

(** ** Page composition, further *)

Lemma foldl_invariant {S A} (P : S → Prop) (f : S → A → S) (l : list A) (s : S) :
  (∀ s a, a ∈ l → P s → P (f s a)) → P s → P (foldl f s l).
Proof.
  revert s. induction l as [|a l IH]; intros s Hstep Hs; simpl; [done|].
  apply IH.
  - intros s' a' Ha'. apply Hstep. by right.
  - apply Hstep; [by left|done].
Qed.

Lemma prim_within_weaken (x0 y0 x1 y1 x0' y0' x1' y1' : Z) (p : prim) :
  x0' ≤ x0 → y0' ≤ y0 → x1 ≤ x1' → y1 ≤ y1' →
  prim_within x0 y0 x1 y1 p → prim_within x0' y0' x1' y1' p.
Proof.
  intros ? ? ? ?. destruct p as [[[[a b] c] d] ? ?|[[[a b] c] d] ? ?]; simpl; lia.
Qed.

(** X3: rendering a page raises exactly when the grid has no column or no
    row, and what it raises then is [ZeroDivisionError]; a missing or
    unreadable font never makes it fail. *)
Theorem page_raises_only_on_empty_grid (pil : pillow) (page_chars : list codepoint)
    (grid_type grid_color_name text_color_name demo_level : string) (cols rows : Z)
    (font_path : string) (show_demo blank_row_after_each : bool) :
  ((cols = 0 ∨ rows = 0)
   ∧ generate_single_page_image pil page_chars grid_type grid_color_name
       text_color_name demo_level cols rows font_path show_demo blank_row_after_each
     = Raise ZeroDivisionError)
  ∨ (cols ≠ 0 ∧ rows ≠ 0
     ∧ ∃ img,
         generate_single_page_image pil page_chars grid_type grid_color_name
           text_color_name demo_level cols rows font_path show_demo
           blank_row_after_each
         = Ok img).
Proof.
  unfold generate_single_page_image, floordiv.
  destruct (decide (cols = 0)) as [Hcols|Hcols]; [left; split; [by left|done]|].
  destruct (decide (rows = 0)) as [Hrows|Hrows]; [left; split; [by right|done]|].
  right. split; [done|]. split; [done|].
  simpl. rewrite load_font_resolves. simpl.
  destruct (resolve_as_specified pil font_path _) as [fnt info]. by eexists.
Qed.

Section GlyphFacts.
Context (pil : pillow) (page_chars : list codepoint) (grid_type : string)
  (grid_color text_color : rgb)
  (alpha cols cell_size offset_x offset_y max_demo_cells : Z) (fnt : font pil)
  (show_demo blank_row_after_each : bool).

Local Abbreviation fill := (text_color.1.1, text_color.1.2, text_color.2, alpha).
Local Abbreviation holds st :=
  (follows_chunk page_chars max_demo_cells fnt fill (cmp_index pil st)
     (cmp_text pil st)).

Lemma compose_cell_follows_chunk (r c : Z) (st : composer pil) :
  holds st →
  holds
    (compose_cell pil page_chars grid_type grid_color text_color alpha cell_size
       offset_x offset_y max_demo_cells fnt show_demo blank_row_after_each r st c).
Proof.
  intros (Hindex & Hmax & Hchars & Hstyle). unfold compose_cell.
  destruct (_ && _ && _ && _) eqn:Hplace; [|done].
  apply andb_prop in Hplace as [Hplace Hroom%Z.ltb_lt].
  apply andb_prop in Hplace as [_ Hleft%Z.ltb_lt].
  destruct (page_chars !! Z.to_nat (cmp_index pil st)) as [ch|] eqn:Hch; [|done].
  destruct text_color as [[red green] blue]. simpl.
  unfold follows_chunk, drawn_chars in *. simpl.
  split; [unfold len in *; lia|]. split; [lia|]. split.
  - rewrite fmap_app, Hchars. simpl.
    replace (Z.to_nat (cmp_index pil st + 1)) with (S (Z.to_nat (cmp_index pil st)))
      by lia.
    by rewrite (take_S_r _ _ ch).
  - apply Forall_app. split; [done|]. by repeat constructor.
Qed.

Lemma compose_rows_follow_chunk (rs : list Z) (st : composer pil) :
  holds st →
  holds
    (foldl
       (compose_row pil page_chars grid_type grid_color text_color alpha cols
          cell_size offset_x offset_y max_demo_cells fnt show_demo
          blank_row_after_each) st rs).
Proof.
  intros Hst.
  apply (foldl_invariant (λ st, holds st)); [|done].
  intros st' r _ Hst'. unfold compose_row.
  apply (foldl_invariant (λ st, holds st)); [|done].
  intros st'' c _ Hst''. by apply compose_cell_follows_chunk.
Qed.

End GlyphFacts.

(** X4: a page never shows more than its chunk provides: on a grid with a
    column and a row, the characters on the text layer are the first
    characters of the chunk, in order, at most as many as the page has cells
    for characters; every glyph is drawn in the font that was resolved once
    for the page, in the selected text colour at the alpha of the
    demonstration level. *)
Theorem page_shows_a_prefix_of_its_chunk (pil : pillow) (page_chars : list codepoint)
    (grid_type grid_color_name text_color_name demo_level : string) (cols rows : Z)
    (font_path : string) (show_demo blank_row_after_each : bool) :
  cols ≠ 0 → rows ≠ 0 →
  ∃ img fnt info,
    generate_single_page_image pil page_chars grid_type grid_color_name
      text_color_name demo_level cols rows font_path show_demo blank_row_after_each
    = Ok img
    ∧ drawn_chars (text_layer img) `prefix_of` page_chars
    ∧ len (text_layer img) ≤ Z.max 0 (page_capacity cols rows blank_row_after_each)
    ∧ load_font pil font_path (font_size_of pil (grid_cell_size cols rows))
      = Ok (fnt, info)
    ∧ Forall
        (λ g, glyph_font g = fnt
              ∧ glyph_fill g
                = ((get_text_color text_color_name).1.1,
                   (get_text_color text_color_name).1.2,
                   (get_text_color text_color_name).2,
                   get_demo_alpha demo_level))
        (text_layer img).
Proof.
  intros Hcols Hrows.
  unfold generate_single_page_image, floordiv, grid_cell_size.
  destruct (decide (cols = 0)) as [?|_]; [done|].
  destruct (decide (rows = 0)) as [?|_]; [done|].
  simpl. rewrite !load_font_resolves. simpl.
  set (cell_size := Z.min _ _).
  destruct (resolve_as_specified pil font_path _) as [fnt info].
  eexists _, fnt, info. split; [reflexivity|]. simpl.
  pose proof
    (compose_rows_follow_chunk pil page_chars grid_type
       (get_grid_color grid_color_name) (get_text_color text_color_name)
       (get_demo_alpha demo_level) cols cell_size
       ((PAGE_WIDTH - cell_size * cols) `div` 2)
       ((PAGE_HEIGHT - cell_size * rows) `div` 2)
       (cols * demo_rows_per_page rows blank_row_after_each) fnt show_demo
       blank_row_after_each (range rows) (Composer pil [] [] 0)) as Hinv.
  destruct Hinv as (Hindex & Hmax & Hchars & Hstyle).
  { unfold follows_chunk, drawn_chars, len. simpl. repeat split; try lia.
    constructor. }
  split; [rewrite Hchars; apply prefix_take|].
  split; [|by split].
  apply (f_equal length) in Hchars.
  unfold drawn_chars in Hchars. rewrite length_fmap, length_take in Hchars.
  unfold page_capacity, len in *. lia.
Qed.

Lemma page_shows_a_prefix_of_its_chunk_sample :
  ∃ img fnt info,
    generate_single_page_image sample_pillow [0x6C38; 0x548C; 0x4E5D]%N "米字格"
      "红色" "黑色" "适中" 1 2 "" true true = Ok img
    ∧ drawn_chars (text_layer img) `prefix_of` [0x6C38; 0x548C; 0x4E5D]%N
    ∧ len (text_layer img) ≤ Z.max 0 (page_capacity 1 2 true)
    ∧ load_font sample_pillow "" (font_size_of sample_pillow (grid_cell_size 1 2))
      = Ok (fnt, info)
    ∧ Forall
        (λ g, glyph_font g = fnt
              ∧ glyph_fill g
                = ((get_text_color "黑色").1.1, (get_text_color "黑色").1.2,
                   (get_text_color "黑色").2, get_demo_alpha "适中"))
        (text_layer img).
Proof.
  apply (page_shows_a_prefix_of_its_chunk sample_pillow [0x6C38; 0x548C; 0x4E5D]%N
           "米字格" "红色" "黑色" "适中" 1 2 "" true true); lia.
Defined.

(** ** Where the characters of a chunk go *)

Lemma ceil_div_two (rows : Z) : ceil_div rows 2 = (rows + 1) `div` 2.
Proof.
  pose proof (ceil_div_half rows).
  pose proof (Z.div_mod (rows + 1) 2 ltac:(lia)).
  pose proof (Z.mod_pos_bound (rows + 1) 2 ltac:(lia)).
  lia.
Qed.

Lemma demo_cell_of_row (cols : Z) (blank : bool) (D j : Z) :
  0 ≤ j < cols →
  demo_cell cols blank (cols * D + j) = (if blank then 2 * D else D, j).
Proof.
  intros Hj. unfold demo_cell.
  assert ((cols * D + j) `div` cols = D) as ->.
  { rewrite (Z.mul_comm cols D), Z.div_add_l by lia. rewrite Z.div_small by lia. lia. }
  assert ((cols * D + j) `mod` cols = j) as ->; [|done].
  rewrite (Z.mul_comm cols D), Z.add_comm, Z.mod_add by lia. by apply Z.mod_small.
Qed.

(** The rows that take characters among the first [R] rows. *)
Lemma demo_rows_next (blank : bool) (R : Z) :
  0 ≤ R → ¬ (blank = true ∧ R `mod` 2 ≠ 0) →
  0 ≤ (if blank then (R + 1) `div` 2 else R)
  ∧ R = (if blank then 2 * ((R + 1) `div` 2) else R)
  ∧ (if blank then (R + 1 + 1) `div` 2 else R + 1)
    = (if blank then (R + 1) `div` 2 else R) + 1.
Proof.
  intros HR Hdemo.
  pose proof (Z.div_mod R 2 ltac:(lia)).
  pose proof (Z.mod_pos_bound R 2 ltac:(lia)).
  pose proof (Z.div_mod (R + 1) 2 ltac:(lia)).
  pose proof (Z.mod_pos_bound (R + 1) 2 ltac:(lia)).
  pose proof (Z.div_mod (R + 1 + 1) 2 ltac:(lia)).
  pose proof (Z.mod_pos_bound (R + 1 + 1) 2 ltac:(lia)).
  destruct blank; [|lia].
  assert (R `mod` 2 = 0) by (destruct (decide (R `mod` 2 = 0)); [done|tauto]).
  lia.
Qed.

Lemma demo_rows_skip (R : Z) :
  R `mod` 2 ≠ 0 → (R + 1 + 1) `div` 2 = (R + 1) `div` 2.
Proof.
  intros Hodd.
  pose proof (Z.div_mod R 2 ltac:(lia)).
  pose proof (Z.mod_pos_bound R 2 ltac:(lia)).
  pose proof (Z.div_mod (R + 1) 2 ltac:(lia)).
  pose proof (Z.mod_pos_bound (R + 1) 2 ltac:(lia)).
  pose proof (Z.div_mod (R + 1 + 1) 2 ltac:(lia)).
  pose proof (Z.mod_pos_bound (R + 1 + 1) 2 ltac:(lia)).
  lia.
Qed.

Lemma demo_rows_bound (blank : bool) (R rows : Z) :
  R ≤ rows →
  (if blank then (R + 1) `div` 2 else R) ≤ demo_rows_per_page rows blank.
Proof.
  intros HR. unfold demo_rows_per_page. rewrite ceil_div_two.
  destruct blank; [|done]. apply Z.div_le_mono; lia.
Qed.

Section PlacementFacts.
Context (pil : pillow) (page_chars : list codepoint) (grid_type : string)
  (grid_color : rgb) (red green blue : Z)
  (alpha cols rows cell_size offset_x offset_y : Z) (fnt : font pil)
  (blank_row_after_each : bool).
Hypothesis Hcols : 0 < cols.

Local Abbreviation text_color := (red, green, blue).

Local Abbreviation max_demo_cells :=
  (cols * demo_rows_per_page rows blank_row_after_each).
Local Abbreviation expected :=
  (glyphs_in cols cell_size offset_x offset_y blank_row_after_each fnt
     (red, green, blue, alpha) page_chars).
Local Abbreviation cell :=
  (compose_cell pil page_chars grid_type grid_color text_color alpha cell_size
     offset_x offset_y max_demo_cells fnt true blank_row_after_each).
Local Abbreviation row :=
  (compose_row pil page_chars grid_type grid_color text_color alpha cols cell_size
     offset_x offset_y max_demo_cells fnt true blank_row_after_each).
Local Abbreviation filled n st :=
  (fills_first expected n (cmp_index pil st) (cmp_text pil st)).

Lemma expected_length : len expected = len page_chars.
Proof. unfold len, glyphs_in. by rewrite length_imap. Qed.

(** A cell that takes a character: the next glyph is the expected one. *)
Lemma compose_cell_fills (n r c : Z) (st : composer pil) :
  0 ≤ n < max_demo_cells →
  demo_cell cols blank_row_after_each n = (r, c) →
  filled n st → filled (n + 1) (cell r st c).
Proof.
  intros Hn Hcell [Hindex Htext]. rewrite expected_length in Hindex.
  assert ((if blank_row_after_each then r `mod` 2 =? 0 else true) = true) as Hdemo.
  { unfold demo_cell in Hcell. injection Hcell as <- _.
    destruct blank_row_after_each; [|done].
    apply Z.eqb_eq. rewrite Z.mul_comm. by apply Z.mod_mul. }
  unfold compose_cell, fills_first. rewrite Hdemo, expected_length. simpl.
  destruct (Z.ltb_spec (cmp_index pil st) (len page_chars)) as [Hleft|Hdone]; simpl.
  - assert (cmp_index pil st = n) as Hat by lia. rewrite Hat.
    destruct (Z.ltb_spec n (cols * demo_rows_per_page rows blank_row_after_each))
      as [_|?]; [|lia].
    destruct (page_chars !! Z.to_nat n) as [ch|] eqn:Hch.
    + simpl. split; [lia|]. rewrite Z.add_0_r.
      replace (Z.to_nat (n + 1)) with (S (Z.to_nat n)) by lia.
      rewrite (take_S_r expected (Z.to_nat n)
                 (Glyph (centre_in cell_size offset_x offset_y (r, c)) ch fnt
                    (red, green, blue, alpha))).
      * by rewrite Htext.
      * unfold glyphs_in. rewrite list_lookup_imap, Hch. simpl.
        by rewrite Z2Nat.id, Hcell by lia.
    + apply lookup_ge_None in Hch. unfold len in *. lia.
  - simpl. split; [lia|].
    rewrite Htext, !take_ge; [done|..];
      pose proof expected_length as Hlen; unfold len in *; lia.
Qed.

(** A row that takes characters. *)
Lemma compose_row_fills (D r : Z) (st : composer pil) :
  0 ≤ D → r = (if blank_row_after_each then 2 * D else D) →
  cols * (D + 1) ≤ max_demo_cells →
  filled (cols * D) st → filled (cols * (D + 1)) (row st r).
Proof.
  intros HD Hr Hroom Hst. unfold compose_row, range.
  assert (∀ j : nat, Z.of_nat j ≤ cols →
            filled (cols * D + Z.of_nat j) (foldl (cell r) st (seqZ 0 (Z.of_nat j))))
    as Hcells.
  { induction j as [|j IH]; intros Hj.
    - by rewrite Z.add_0_r.
    - rewrite seqZ_S, foldl_app. simpl.
      replace (cols * D + Z.of_nat (S j)) with (cols * D + Z.of_nat j + 1) by lia.
      apply compose_cell_fills; [lia| |apply IH; lia].
      rewrite demo_cell_of_row by lia. by rewrite Hr, Z.add_0_l. }
  specialize (Hcells (Z.to_nat cols) ltac:(lia)).
  rewrite Z2Nat.id in Hcells by lia.
  by replace (cols * (D + 1)) with (cols * D + cols) by lia.
Qed.

(** A row that is left blank. *)
Lemma compose_row_blank (r : Z) (st : composer pil) :
  blank_row_after_each = true → r `mod` 2 ≠ 0 →
  cmp_index pil (row st r) = cmp_index pil st
  ∧ cmp_text pil (row st r) = cmp_text pil st.
Proof.
  intros Hblank Hodd. unfold compose_row.
  apply (foldl_invariant
           (λ st', cmp_index pil st' = cmp_index pil st
                   ∧ cmp_text pil st' = cmp_text pil st)); [|done].
  intros st' c _ [Hindex Htext]. unfold compose_cell. rewrite Hblank.
  destruct (Z.eqb_spec (r `mod` 2) 0) as [?|_]; [done|]. by simpl.
Qed.

(** The rows of the page, from the first to row [R]. *)
Lemma compose_rows_fill (R : nat) :
  Z.of_nat R ≤ rows →
  filled
    (cols * (if blank_row_after_each then (Z.of_nat R + 1) `div` 2 else Z.of_nat R))
    (foldl row (Composer pil [] [] 0) (seqZ 0 (Z.of_nat R))).
Proof.
  induction R as [|R IH]; intros HR.
  - replace (if blank_row_after_each then (Z.of_nat 0 + 1) `div` 2 else Z.of_nat 0)
      with 0 by (by destruct blank_row_after_each).
    rewrite Z.mul_0_r. unfold fills_first, len. simpl. split; [lia|done].
  - rewrite seqZ_S, foldl_app. simpl. rewrite Z.add_0_l.
    specialize (IH ltac:(lia)).
    replace (Z.of_nat (S R)) with (Z.of_nat R + 1) in * by lia.
    destruct (decide (blank_row_after_each = true ∧ Z.of_nat R `mod` 2 ≠ 0))
      as [[Hblank Hodd]|Hdemo].
    + destruct (compose_row_blank (Z.of_nat R)
                  (foldl row (Composer pil [] [] 0) (seqZ 0 (Z.of_nat R))) Hblank Hodd)
        as [-> ->].
      replace (if blank_row_after_each then (Z.of_nat R + 1 + 1) `div` 2
               else Z.of_nat R + 1)
        with (if blank_row_after_each then (Z.of_nat R + 1) `div` 2 else Z.of_nat R);
        [done|].
      rewrite Hblank. symmetry. by apply demo_rows_skip.
    + destruct (demo_rows_next blank_row_after_each (Z.of_nat R) ltac:(lia) Hdemo)
        as (HD & Hr & ->).
      pose proof (demo_rows_bound blank_row_after_each (Z.of_nat R + 1) rows HR)
        as Hbound.
      apply compose_row_fills; [done| |  |done].
      * rewrite Hr at 1. by destruct blank_row_after_each.
      * destruct (demo_rows_next blank_row_after_each (Z.of_nat R) ltac:(lia) Hdemo)
          as (_ & _ & Hnext).
        rewrite Hnext in Hbound. by apply Z.mul_le_mono_nonneg_l; [lia|].
Qed.

End PlacementFacts.

Lemma drawn_chars_glyphs_in {F} (cols cell_size offset_x offset_y : Z) (blank : bool)
    (fnt : F) (fill : Z * Z * Z * Z) (page_chars : list codepoint) :
  drawn_chars (glyphs_in cols cell_size offset_x offset_y blank fnt fill page_chars)
  = page_chars.
Proof.
  unfold drawn_chars, glyphs_in. apply list_eq. intros k.
  rewrite list_lookup_fmap, list_lookup_imap. by destruct (page_chars !! k).
Qed.

(** What a page with [show_demo] on has on its text layer. *)
Lemma page_text_layer (pil : pillow) (page_chars : list codepoint)
    (grid_type grid_color_name text_color_name demo_level : string) (cols rows : Z)
    (font_path : string) (blank_row_after_each : bool) :
  1 ≤ cols → 1 ≤ rows →
  ∃ img fnt info,
    generate_single_page_image pil page_chars grid_type grid_color_name
      text_color_name demo_level cols rows font_path true blank_row_after_each
    = Ok img
    ∧ load_font pil font_path (font_size_of pil (grid_cell_size cols rows))
      = Ok (fnt, info)
    ∧ text_layer img
      = take (Z.to_nat (page_capacity cols rows blank_row_after_each))
          (expected_glyphs cols rows blank_row_after_each fnt
             ((get_text_color text_color_name).1.1,
              (get_text_color text_color_name).1.2,
              (get_text_color text_color_name).2, get_demo_alpha demo_level)
             page_chars).
Proof.
  intros Hcols Hrows.
  unfold generate_single_page_image, floordiv, expected_glyphs, grid_origin,
    grid_cell_size, page_capacity.
  destruct (decide (cols = 0)) as [?|_]; [lia|].
  destruct (decide (rows = 0)) as [?|_]; [lia|].
  simpl. rewrite !load_font_resolves. simpl.
  set (cell_size := Z.min _ _).
  destruct (resolve_as_specified pil font_path _) as [fnt info].
  destruct (get_text_color text_color_name) as [[red green] blue]. simpl.
  eexists _, fnt, info. split; [reflexivity|]. split; [reflexivity|]. simpl.
  pose proof
    (compose_rows_fill pil page_chars grid_type (get_grid_color grid_color_name)
       red green blue (get_demo_alpha demo_level) cols rows cell_size
       ((PAGE_WIDTH - cell_size * cols) `div` 2)
       ((PAGE_HEIGHT - cell_size * rows) `div` 2) fnt blank_row_after_each
       ltac:(lia) (Z.to_nat rows) ltac:(lia)) as [_ Hfilled].
  rewrite Z2Nat.id in Hfilled by lia.
  replace (if blank_row_after_each then (rows + 1) `div` 2 else rows)
    with (demo_rows_per_page rows blank_row_after_each) in Hfilled
    by (unfold demo_rows_per_page; by rewrite ceil_div_two).
  exact Hfilled.
Qed.

(** A chunk that fits the capacity is shown whole. *)
Lemma page_shows_fitting_chunk (pil : pillow) (page_chars : list codepoint)
    (grid_type grid_color_name text_color_name demo_level : string) (cols rows : Z)
    (font_path : string) (blank_row_after_each : bool) :
  1 ≤ cols → 1 ≤ rows →
  len page_chars ≤ page_capacity cols rows blank_row_after_each →
  ∃ img,
    generate_single_page_image pil page_chars grid_type grid_color_name
      text_color_name demo_level cols rows font_path true blank_row_after_each
    = Ok img
    ∧ drawn_chars (text_layer img) = page_chars.
Proof.
  intros Hcols Hrows Hfits.
  destruct (page_text_layer pil page_chars grid_type grid_color_name text_color_name
              demo_level cols rows font_path blank_row_after_each Hcols Hrows)
    as (img & fnt & info & Himg & _ & Htext).
  exists img. split; [done|].
  rewrite Htext. unfold drawn_chars at 1. rewrite fmap_take.
  unfold expected_glyphs.
  change (take (Z.to_nat (page_capacity cols rows blank_row_after_each))
            (drawn_chars
               (glyphs_in cols (grid_cell_size cols rows) (grid_origin cols rows).1
                  (grid_origin cols rows).2 blank_row_after_each fnt
                  ((get_text_color text_color_name).1.1,
                   (get_text_color text_color_name).1.2,
                   (get_text_color text_color_name).2, get_demo_alpha demo_level)
                  page_chars)) = page_chars).
  rewrite drawn_chars_glyphs_in. apply take_ge. unfold len in Hfits. lia.
Qed.

(** X5: on a grid with at least one column and one row, a page with
    [show_demo] on draws character [k] of its chunk centred in the [k]-th cell
    that takes a character, counting in row-major order and skipping every
    other row when they are left blank, up to the capacity of the page; so a
    chunk that fits the capacity is shown whole and in order. *)
Theorem page_places_its_chunk (pil : pillow) (page_chars : list codepoint)
    (grid_type grid_color_name text_color_name demo_level : string) (cols rows : Z)
    (font_path : string) (blank_row_after_each : bool) :
  1 ≤ cols → 1 ≤ rows →
  ∃ img fnt info,
    generate_single_page_image pil page_chars grid_type grid_color_name
      text_color_name demo_level cols rows font_path true blank_row_after_each
    = Ok img
    ∧ load_font pil font_path (font_size_of pil (grid_cell_size cols rows))
      = Ok (fnt, info)
    ∧ text_layer img
      = take (Z.to_nat (page_capacity cols rows blank_row_after_each))
          (expected_glyphs cols rows blank_row_after_each fnt
             ((get_text_color text_color_name).1.1,
              (get_text_color text_color_name).1.2,
              (get_text_color text_color_name).2, get_demo_alpha demo_level)
             page_chars)
    ∧ (len page_chars ≤ page_capacity cols rows blank_row_after_each →
       drawn_chars (text_layer img) = page_chars).
Proof.
  intros Hcols Hrows.
  destruct (page_text_layer pil page_chars grid_type grid_color_name text_color_name
              demo_level cols rows font_path blank_row_after_each Hcols Hrows)
    as (img & fnt & info & Himg & Hfont & Htext).
  exists img, fnt, info. repeat split; try done.
  intros Hfits.
  destruct (page_shows_fitting_chunk pil page_chars grid_type grid_color_name
              text_color_name demo_level cols rows font_path blank_row_after_each
              Hcols Hrows Hfits) as (img' & Himg' & Hshown).
  rewrite Himg in Himg'. by injection Himg' as <-.
Qed.

Lemma page_places_its_chunk_sample :
  ∃ img fnt info,
    generate_single_page_image sample_pillow [0x6C38; 0x548C; 0x4E5D]%N "米字格"
      "红色" "黑色" "适中" 2 3 "" true true = Ok img
    ∧ load_font sample_pillow "" (font_size_of sample_pillow (grid_cell_size 2 3))
      = Ok (fnt, info)
    ∧ text_layer img
      = take (Z.to_nat (page_capacity 2 3 true))
          (expected_glyphs 2 3 true fnt
             ((get_text_color "黑色").1.1, (get_text_color "黑色").1.2,
              (get_text_color "黑色").2, get_demo_alpha "适中")
             [0x6C38; 0x548C; 0x4E5D]%N)
    ∧ (len [0x6C38; 0x548C; 0x4E5D]%N ≤ page_capacity 2 3 true →
       drawn_chars (text_layer img) = [0x6C38; 0x548C; 0x4E5D]%N).
Proof.
  apply (page_places_its_chunk sample_pillow [0x6C38; 0x548C; 0x4E5D]%N "米字格"
           "红色" "黑色" "适中" 2 3 "" true); lia.
Defined.

(** ** The grid on the page *)

(** The grid of a page with at least one column and one row lies between
    the margins: 150 pixels left and right, 250 above and below. *)
Lemma grid_geometry (cols rows : Z) :
  1 ≤ cols → 1 ≤ rows →
  0 ≤ grid_cell_size cols rows
  ∧ 150 ≤ (grid_origin cols rows).1
  ∧ (grid_origin cols rows).1 + cols * grid_cell_size cols rows ≤ PAGE_WIDTH - 150
  ∧ 250 ≤ (grid_origin cols rows).2
  ∧ (grid_origin cols rows).2 + rows * grid_cell_size cols rows ≤ PAGE_HEIGHT - 250.
Proof.
  intros Hcols Hrows. unfold grid_origin, grid_cell_size, PAGE_WIDTH, PAGE_HEIGHT.
  simpl.
  set (w := (2480 - 150 * 2) `div` cols). set (h := (3508 - 250 * 2) `div` rows).
  assert (0 ≤ w ∧ cols * w ≤ 2180) as [Hw Hw'].
  { split; [apply Z.div_pos; lia|]. pose proof (Z.mul_div_le (2480 - 150 * 2) cols). lia. }
  assert (0 ≤ h ∧ rows * h ≤ 3008) as [Hh Hh'].
  { split; [apply Z.div_pos; lia|]. pose proof (Z.mul_div_le (3508 - 250 * 2) rows). lia. }
  set (cell := w `min` h).
  assert (0 ≤ cell ∧ cell * cols ≤ 2180 ∧ cell * rows ≤ 3008) as (Hcell & Hx & Hy)
    by (unfold cell; nia).
  pose proof (Z.div_mod (2480 - cell * cols) 2 ltac:(lia)).
  pose proof (Z.mod_pos_bound (2480 - cell * cols) 2 ltac:(lia)).
  pose proof (Z.div_mod (3508 - cell * rows) 2 ltac:(lia)).
  pose proof (Z.mod_pos_bound (3508 - cell * rows) 2 ltac:(lia)).
  lia.
Qed.

Section MarginFacts.
Context (pil : pillow) (page_chars : list codepoint) (grid_type : string)
  (grid_color text_color : rgb)
  (alpha cols rows cell_size offset_x offset_y max_demo_cells : Z) (fnt : font pil)
  (show_demo blank_row_after_each : bool).
Hypothesis Hcell : 0 ≤ cell_size.
Hypothesis Hleft : 150 ≤ offset_x.
Hypothesis Hright : offset_x + cols * cell_size ≤ PAGE_WIDTH - 150.
Hypothesis Htop : 250 ≤ offset_y.
Hypothesis Hbottom : offset_y + rows * cell_size ≤ PAGE_HEIGHT - 250.

Local Abbreviation inside st :=
  (Forall (prim_within 150 250 (PAGE_WIDTH - 150) (PAGE_HEIGHT - 250))
     (cmp_draw pil st)
   ∧ Forall
       (λ g, point_within 150 250 (PAGE_WIDTH - 150) (PAGE_HEIGHT - 250) (glyph_xy g))
       (cmp_text pil st)).

Lemma compose_cell_inside (r c : Z) (st : composer pil) :
  0 ≤ r < rows → 0 ≤ c < cols →
  inside st →
  inside
    (compose_cell pil page_chars grid_type grid_color text_color alpha cell_size
       offset_x offset_y max_demo_cells fnt show_demo blank_row_after_each r st c).
Proof.
  intros Hr Hc [Hdraw Htext]. unfold compose_cell.
  destruct (draw_grid_appends (cmp_draw pil st) (offset_x + c * cell_size)
              (offset_y + r * cell_size) cell_size grid_type grid_color Hcell)
    as (added & -> & Hadded).
  assert (Forall (prim_within 150 250 (PAGE_WIDTH - 150) (PAGE_HEIGHT - 250))
            (cmp_draw pil st ++ added)) as Hdraw'.
  { apply Forall_app. split; [done|].
    eapply Forall_impl; [exact Hadded|]. intros p.
    apply prim_within_weaken; nia. }
  pose proof (cell_fractions cell_size Hcell) as (Hhalf & _).
  destruct (_ && _ && _ && _); [|done].
  destruct (page_chars !! Z.to_nat (cmp_index pil st)) as [ch|]; [|done].
  destruct text_color as [[red green] blue]. simpl.
  split; [done|]. apply Forall_app. split; [done|].
  repeat constructor; simpl; nia.
Qed.

Lemma compose_rows_inside (st : composer pil) :
  inside st →
  inside
    (foldl
       (compose_row pil page_chars grid_type grid_color text_color alpha cols
          cell_size offset_x offset_y max_demo_cells fnt show_demo
          blank_row_after_each) st (range rows)).
Proof.
  intros Hst.
  apply (foldl_invariant (λ st, inside st)); [|done].
  intros st' r Hr%elem_of_seqZ Hst'. unfold compose_row.
  apply (foldl_invariant (λ st, inside st)); [|done].
  intros st'' c Hc%elem_of_seqZ Hst''. apply compose_cell_inside; [lia|lia|done].
Qed.

End MarginFacts.

(** X6: on a page with at least one column and one row, every line and
    rectangle of the grid, and the centre of every glyph, lies inside the
    margins of the page (150 pixels at the sides, 250 at top and bottom), and
    every rectangle has its corners in order. *)
Theorem page_stays_inside_margins (pil : pillow) (page_chars : list codepoint)
    (grid_type grid_color_name text_color_name demo_level : string) (cols rows : Z)
    (font_path : string) (show_demo blank_row_after_each : bool) :
  1 ≤ cols → 1 ≤ rows →
  ∃ img,
    generate_single_page_image pil page_chars grid_type grid_color_name
      text_color_name demo_level cols rows font_path show_demo blank_row_after_each
    = Ok img
    ∧ Forall (prim_within 150 250 (PAGE_WIDTH - 150) (PAGE_HEIGHT - 250))
        (base_layer img)
    ∧ Forall
        (λ g, point_within 150 250 (PAGE_WIDTH - 150) (PAGE_HEIGHT - 250) (glyph_xy g))
        (text_layer img).
Proof.
  intros Hcols Hrows.
  destruct (grid_geometry cols rows Hcols Hrows) as (Hcell & Hl & Hr & Ht & Hb).
  unfold grid_origin, grid_cell_size in *. simpl in Hl, Hr, Ht, Hb.
  unfold generate_single_page_image, floordiv.
  destruct (decide (cols = 0)) as [?|_]; [lia|].
  destruct (decide (rows = 0)) as [?|_]; [lia|].
  simpl. rewrite !load_font_resolves. simpl.
  set (cell_size := Z.min _ _) in *.
  destruct (resolve_as_specified pil font_path _) as [fnt info].
  eexists. split; [reflexivity|]. simpl.
  apply (compose_rows_inside pil page_chars grid_type (get_grid_color grid_color_name)
           (get_text_color text_color_name) (get_demo_alpha demo_level) cols rows
           cell_size ((PAGE_WIDTH - cell_size * cols) `div` 2)
           ((PAGE_HEIGHT - cell_size * rows) `div` 2)
           (cols * demo_rows_per_page rows blank_row_after_each) fnt show_demo
           blank_row_after_each Hcell Hl Hr Ht Hb).
  by split.
Qed.

Lemma page_stays_inside_margins_sample :
  ∃ img,
    generate_single_page_image sample_pillow [0x6C38; 0x548C]%N "回宫格" "绿色" "红色"
      "深" 10 14 "simhei.ttf" true false = Ok img
    ∧ Forall (prim_within 150 250 (PAGE_WIDTH - 150) (PAGE_HEIGHT - 250))
        (base_layer img)
    ∧ Forall
        (λ g, point_within 150 250 (PAGE_WIDTH - 150) (PAGE_HEIGHT - 250) (glyph_xy g))
        (text_layer img).
Proof.
  apply (page_stays_inside_margins sample_pillow [0x6C38; 0x548C]%N "回宫格" "绿色"
           "红色" "深" 10 14 "simhei.ttf" true false); lia.
Defined.

(** ** From the text to the pages *)

Lemma for_each_Ok {A B} (f : A → result B) (l : list A) :
  (∀ a, a ∈ l → ∃ b, f a = Ok b) →
  ∃ bs, for_each f l = Ok bs ∧ Forall2 (λ a b, f a = Ok b) l bs.
Proof.
  induction l as [|a l IH]; intros Hall; simpl.
  - exists []. by split.
  - destruct (Hall a) as [b Hb]; [by left|].
    destruct IH as (bs & Hbs & Hall'); [intros a' Ha'; apply Hall; by right|].
    exists (b :: bs). rewrite Hb, Hbs. simpl. split; [done|by constructor].
Qed.

Lemma page_renders (pil : pillow) (page_chars : list codepoint)
    (grid_type grid_color_name text_color_name demo_level : string) (cols rows : Z)
    (font_path : string) (show_demo blank_row_after_each : bool) :
  cols ≠ 0 → rows ≠ 0 →
  ∃ img,
    generate_single_page_image pil page_chars grid_type grid_color_name
      text_color_name demo_level cols rows font_path show_demo blank_row_after_each
    = Ok img.
Proof.
  intros Hcols Hrows. unfold generate_single_page_image, floordiv.
  destruct (decide (cols = 0)) as [?|_]; [done|].
  destruct (decide (rows = 0)) as [?|_]; [done|].
  simpl. rewrite load_font_resolves. simpl.
  destruct (resolve_as_specified pil font_path _) as [fnt info]. by eexists.
Qed.

Lemma capacity_needs_a_grid (cols rows : Z) (blank : bool) :
  page_capacity cols rows blank ≠ 0 → cols ≠ 0 ∧ rows ≠ 0.
Proof.
  unfold page_capacity, demo_rows_per_page. intros Hcap. split.
  - intros ->. lia.
  - intros ->. apply Hcap. destruct blank; [|lia].
    change (ceil_div 0 2) with 0. lia.
Qed.

Lemma fmap_range_seq {A} (g : Z → A) (h : nat → A) (k : nat) :
  (∀ i : nat, (i < k)%nat → g (Z.of_nat i) = h i) →
  g <$> range (Z.of_nat k) = h <$> seq 0 k.
Proof.
  unfold range. induction k as [|k IH]; intros Hsame; [done|].
  rewrite seqZ_S, seq_S, !fmap_app, IH by (intros; apply Hsame; lia).
  rewrite Z.add_0_l. simpl. by rewrite Hsame by lia.
Qed.

(** The slices of the first [k] pages, end to end. *)
Lemma stream_slices_concat (chars : list codepoint) (capacity : Z) (k : nat) :
  concat (stream_slice chars capacity <$> seq 0 k)
  = take (k * Z.to_nat capacity) chars.
Proof.
  induction k as [|k IH]; [done|].
  rewrite seq_S, fmap_app, concat_app, IH. simpl. rewrite app_nil_r.
  unfold stream_slice. rewrite take_take_drop. f_equal. lia.
Qed.

Section StreamOnPages.
Context (chars : list codepoint) (capacity : Z).
Hypothesis Hchars : chars ≠ [].
Hypothesis Hcapacity : 0 < capacity.

Local Abbreviation total := (ceil_div (len chars) capacity).

(** No chunk is longer than a page. *)
Lemma chunk_fits (fill : bool) (i : nat) :
  Z.of_nat i < total → len (page_chars_of chars capacity fill (Z.of_nat i)) ≤ capacity.
Proof.
  intros Hi. unfold len.
  destruct (decide (Z.of_nat i + 1 < total)) as [Hbefore|Hlast].
  - pose proof (piece_full chars capacity Hcapacity i Hbefore) as Hfull.
    rewrite page_chars_of_full by done. lia.
  - destruct (piece_last chars capacity Hcapacity i ltac:(lia)) as [_ Hbounds].
    destruct fill; [|rewrite page_chars_of_unfilled by done; lia].
    destruct (last (stream_slice chars capacity i)) as [last_ch|] eqn:Hlast_ch.
    + rewrite (page_chars_of_filled chars capacity Hcapacity i last_ch Hlast_ch).
      rewrite length_app, length_replicate. lia.
    + apply last_None in Hlast_ch. rewrite Hlast_ch in Hbounds. simpl in Hbounds. lia.
Qed.

(** The chunks, end to end, are the stream followed by the padding of the
    last page. *)
Lemma chunks_concat (fill : bool) :
  ∃ pad,
    concat (page_chars_of chars capacity fill <$> range total) = chars ++ pad
    ∧ (fill = false → pad = [])
    ∧ len pad < capacity.
Proof.
  destruct (total_pages_ok chars capacity Hchars Hcapacity) as [_ Hone].
  pose proof (ceil_div_bounds (len chars) capacity Hcapacity) as Hceil.
  assert (∃ k : nat, total = Z.of_nat (S k)) as [k Hk]
    by (exists (Z.to_nat (total - 1)); lia).
  rewrite Hk. unfold range. rewrite seqZ_S, fmap_app, concat_app.
  fold (range (Z.of_nat k)).
  rewrite (fmap_range_seq _ (stream_slice chars capacity) k).
  - rewrite stream_slices_concat. simpl. rewrite app_nil_r, Z.add_0_l.
    destruct (piece_last chars capacity Hcapacity k ltac:(lia)) as [Hlen Hbounds].
    assert (take (k * Z.to_nat capacity) chars ++ stream_slice chars capacity k = chars)
      as Hwhole.
    { unfold stream_slice. rewrite take_take_drop. apply take_ge.
      unfold len in *. nia. }
    destruct fill.
    + destruct (last (stream_slice chars capacity k)) as [last_ch|] eqn:Hlast.
      * rewrite (page_chars_of_filled chars capacity Hcapacity k last_ch Hlast).
        eexists. rewrite app_assoc, Hwhole. split; [reflexivity|].
        split; [done|]. unfold len. rewrite length_replicate. lia.
      * apply last_None in Hlast. rewrite Hlast in Hbounds. simpl in Hbounds. lia.
    + rewrite page_chars_of_unfilled by done. exists [].
      rewrite Hwhole, app_nil_r. unfold len. simpl.
      split; [done|]. split; [done|lia].
  - intros i Hi. apply page_chars_of_full; [done..|].
    apply piece_full; [done|lia].
Qed.

End StreamOnPages.

Lemma stream_length (text : list codepoint) (repeat_each : Z) :
  0 ≤ repeat_each →
  len (layout_chars (strip_whitespace text) repeat_each)
  = repeat_each * len (strip_whitespace text).
Proof.
  intros Hrepeat. unfold len. rewrite layout_chars_concat, repeated_length. lia.
Qed.

(** X7: for a text with a character that is not whitespace, on a grid with
    at least one column and one row and a repeat count of at least one, the
    generator returns [ceil(repeat_each · n / capacity)] pages, [n] being the
    number of characters that are not whitespace; with [show_demo] on, the
    characters shown on the pages, read page after page, are the character
    stream followed by the padding of the last page, which is shorter than a
    page and empty when [fill_last_page] is off: nothing is lost, repeated or
    reordered across pages. *)
Theorem pages_show_the_stream (pil : pillow) (text : list codepoint)
    (grid_type grid_color_name text_color_name demo_level : string)
    (cols rows repeat_each : Z) (font_path : string)
    (fill_last_page blank_row_after_each : bool) :
  1 ≤ cols → 1 ≤ rows → 1 ≤ repeat_each → strip_whitespace text ≠ [] →
  ∃ images pad,
    generate_multi_page_images pil text grid_type grid_color_name text_color_name
      demo_level cols rows repeat_each font_path true fill_last_page
      blank_row_after_each
    = Ok images
    ∧ len images
      = ceil_div (repeat_each * len (strip_whitespace text))
          (page_capacity cols rows blank_row_after_each)
    ∧ concat ((λ img, drawn_chars (text_layer img)) <$> images)
      = layout_chars (strip_whitespace text) repeat_each ++ pad
    ∧ (fill_last_page = false → pad = [])
    ∧ len pad < page_capacity cols rows blank_row_after_each.
Proof.
  intros Hcols Hrows Hrepeat Htext.
  pose proof (page_capacity_pos cols rows blank_row_after_each Hcols Hrows) as Hcap.
  pose proof (stream_length text repeat_each ltac:(lia)) as Hlen.
  set (chars := layout_chars (strip_whitespace text) repeat_each) in *.
  set (capacity := page_capacity cols rows blank_row_after_each) in *.
  assert (chars ≠ []) as Hchars.
  { intros Hnil. rewrite Hnil in Hlen. pose proof (len_pos _ Htext).
    unfold len in Hlen at 1. simpl in Hlen. nia. }
  unfold generate_multi_page_images.
  rewrite bool_decide_eq_false_2 by done. fold chars.
  rewrite (paginate_pages chars capacity Hchars Hcap cols rows fill_last_page
             blank_row_after_each eq_refl).
  set (pages := page_chars_of chars capacity fill_last_page
                  <$> range (ceil_div (len chars) capacity)).
  assert (∀ chunk, chunk ∈ pages → len chunk ≤ capacity) as Hfit.
  { intros chunk (i & Hi)%list_elem_of_lookup.
    assert (Z.of_nat i < ceil_div (len chars) capacity) as Hbound.
    { apply lookup_lt_Some in Hi.
      pose proof (pages_length chars capacity Hchars Hcap fill_last_page) as Hpages.
      unfold len in Hpages at 1. fold pages in Hpages. lia. }
    unfold pages in Hi. rewrite pages_lookup in Hi by done. injection Hi as <-.
    by apply chunk_fits. }
  destruct (for_each_Ok
              (λ page_chars,
                 generate_single_page_image pil page_chars grid_type grid_color_name
                   text_color_name demo_level cols rows font_path true
                   blank_row_after_each) pages) as (images & Himages & Hrendered).
  { intros chunk Hchunk.
    destruct (page_shows_fitting_chunk pil chunk grid_type grid_color_name
                text_color_name demo_level cols rows font_path blank_row_after_each
                Hcols Hrows (Hfit chunk Hchunk)) as (img & Himg & _).
    by exists img. }
  destruct (chunks_concat chars capacity Hchars Hcap fill_last_page)
    as (pad & Hconcat & Hpad & Hshort).
  exists images, pad. simpl. split; [exact Himages|]. split.
  - pose proof (Forall2_length _ _ _ Hrendered) as Hcount.
    pose proof (pages_length chars capacity Hchars Hcap fill_last_page) as Hpages.
    fold pages in Hpages. unfold len in Hpages at 1. unfold len at 1.
    rewrite <- Hcount, Hpages. by rewrite Hlen.
  - split; [|by split]. rewrite <- Hconcat. fold pages. f_equal.
    clear Hconcat Himages. induction Hrendered as [|chunk img pages' images' Himg _ IH];
      [done|].
    csimpl. rewrite IH by (intros c Hc; apply Hfit; by right). f_equal.
    destruct (page_shows_fitting_chunk pil chunk grid_type grid_color_name
                text_color_name demo_level cols rows font_path blank_row_after_each
                Hcols Hrows (Hfit chunk ltac:(by left))) as (img' & Himg' & Hshown).
    rewrite Himg in Himg'. by injection Himg' as <-.
Qed.

Lemma pages_show_the_stream_sample :
  ∃ images pad,
    generate_multi_page_images sample_pillow [0x6C38; 0x20; 0x548C]%N "田字格" "红色"
      "黑色" "适中" 3 1 2 "" true true false = Ok images
    ∧ len images
      = ceil_div (2 * len (strip_whitespace [0x6C38; 0x20; 0x548C]%N))
          (page_capacity 3 1 false)
    ∧ concat ((λ img, drawn_chars (text_layer img)) <$> images)
      = layout_chars (strip_whitespace [0x6C38; 0x20; 0x548C]%N) 2 ++ pad
    ∧ (true = false → pad = [])
    ∧ len pad < page_capacity 3 1 false.
Proof.
  apply (pages_show_the_stream sample_pillow [0x6C38; 0x20; 0x548C]%N "田字格" "红色"
           "黑色" "适中" 3 1 2 "" true false); [lia..|discriminate].
Defined.

(** X8: for a text with a character that is not whitespace, generation
    raises exactly when the page capacity is zero ([cols] is 0, [rows] is 0,
    or [rows] is -1 with blank rows on), and what it raises is
    [ZeroDivisionError]; otherwise it returns
    [max(1, ceil(len(stream) / capacity))] pages, at least one. *)
Theorem generation_raises_only_on_zero_capacity (pil : pillow) (text : list codepoint)
    (grid_type grid_color_name text_color_name demo_level : string)
    (cols rows repeat_each : Z) (font_path : string)
    (show_demo fill_last_page blank_row_after_each : bool) :
  strip_whitespace text ≠ [] →
  (page_capacity cols rows blank_row_after_each = 0
   ∧ generate_multi_page_images pil text grid_type grid_color_name text_color_name
       demo_level cols rows repeat_each font_path show_demo fill_last_page
       blank_row_after_each
     = Raise ZeroDivisionError)
  ∨ (page_capacity cols rows blank_row_after_each ≠ 0
     ∧ ∃ images,
         generate_multi_page_images pil text grid_type grid_color_name
           text_color_name demo_level cols rows repeat_each font_path show_demo
           fill_last_page blank_row_after_each
         = Ok images
         ∧ len images
           = Z.max 1
               (ceil_div (len (layout_chars (strip_whitespace text) repeat_each))
                  (page_capacity cols rows blank_row_after_each))).
Proof.
  intros Htext. unfold generate_multi_page_images, paginate, total_pages.
  rewrite bool_decide_eq_false_2 by done.
  set (chars := layout_chars (strip_whitespace text) repeat_each).
  set (capacity := page_capacity cols rows blank_row_after_each).
  destruct (decide (capacity = 0)) as [Hzero|Hcap]; [by left|].
  right. split; [done|].
  destruct (capacity_needs_a_grid cols rows blank_row_after_each Hcap)
    as [Hcols Hrows].
  simpl.
  destruct (for_each_Ok
              (λ page_chars,
                 generate_single_page_image pil page_chars grid_type grid_color_name
                   text_color_name demo_level cols rows font_path show_demo
                   blank_row_after_each)
              (page_chars_of chars capacity fill_last_page
                 <$> range (Z.max 1 (ceil_div (len chars) capacity))))
    as (images & Himages & Hrendered).
  { intros chunk _. by apply page_renders. }
  exists images. split; [exact Himages|].
  apply Forall2_length in Hrendered.
  unfold len at 1. rewrite <- Hrendered. unfold range.
  rewrite length_fmap, length_seqZ. lia.
Qed.

Lemma generation_raises_only_on_zero_capacity_sample :
  (page_capacity 3 (-1) true = 0
   ∧ generate_multi_page_images sample_pillow [0x6C38]%N "田字格" "红色" "黑色" "适中"
       3 (-1) 1 "" true false true
     = Raise ZeroDivisionError)
  ∨ (page_capacity 3 (-1) true ≠ 0
     ∧ ∃ images,
         generate_multi_page_images sample_pillow [0x6C38]%N "田字格" "红色" "黑色"
           "适中" 3 (-1) 1 "" true false true
         = Ok images
         ∧ len images
           = Z.max 1
               (ceil_div (len (layout_chars (strip_whitespace [0x6C38]%N) 1))
                  (page_capacity 3 (-1) true))).
Proof.
  apply (generation_raises_only_on_zero_capacity sample_pillow [0x6C38]%N "田字格"
           "红色" "黑色" "适中" 3 (-1) 1 "" true false true).
  discriminate.
Defined.

Lemma empty_chunk_page (pil : pillow)
    (grid_type grid_color_name text_color_name demo_level : string) (cols rows : Z)
    (font_path : string) (show_demo blank_row_after_each : bool) :
  cols ≠ 0 → rows ≠ 0 →
  ∃ img,
    generate_single_page_image pil [] grid_type grid_color_name text_color_name
      demo_level cols rows font_path show_demo blank_row_after_each
    = Ok img
    ∧ text_layer img = [].
Proof.
  intros Hcols Hrows. unfold generate_single_page_image, floordiv.
  destruct (decide (cols = 0)) as [?|_]; [done|].
  destruct (decide (rows = 0)) as [?|_]; [done|].
  simpl. rewrite !load_font_resolves. simpl.
  set (cell_size := Z.min _ _).
  destruct (resolve_as_specified pil font_path _) as [fnt info].
  eexists. split; [reflexivity|]. simpl.
  pose proof
    (compose_rows_follow_chunk pil [] grid_type
       (get_grid_color grid_color_name) (get_text_color text_color_name)
       (get_demo_alpha demo_level) cols cell_size
       ((PAGE_WIDTH - cell_size * cols) `div` 2)
       ((PAGE_HEIGHT - cell_size * rows) `div` 2)
       (cols * demo_rows_per_page rows blank_row_after_each) fnt show_demo
       blank_row_after_each (range rows) (Composer pil [] [] 0)) as Hinv.
  destruct Hinv as (_ & _ & Hchars & _).
  { unfold follows_chunk, drawn_chars, len. simpl. repeat split; try lia.
    constructor. }
  rewrite take_nil in Hchars. by apply fmap_nil_inv in Hchars.
Qed.

Lemma stream_without_repeats (chars : list codepoint) (repeat_each : Z) :
  repeat_each ≤ 0 → layout_chars chars repeat_each = [].
Proof.
  intros Hrepeat. rewrite layout_chars_concat.
  replace (Z.to_nat repeat_each) with 0%nat by lia.
  induction chars as [|ch chars IH]; [done|]. by csimpl.
Qed.

(** X9: a repeat count of zero or less empties the stream but not the
    document: for a text with a character that is not whitespace and a
    capacity other than zero, the generator returns exactly one page, the
    page of an empty chunk, with the grid and no glyph. *)
Theorem no_repeat_gives_one_empty_page (pil : pillow) (text : list codepoint)
    (grid_type grid_color_name text_color_name demo_level : string)
    (cols rows repeat_each : Z) (font_path : string)
    (show_demo fill_last_page blank_row_after_each : bool) :
  strip_whitespace text ≠ [] → repeat_each ≤ 0 →
  page_capacity cols rows blank_row_after_each ≠ 0 →
  ∃ img,
    generate_multi_page_images pil text grid_type grid_color_name text_color_name
      demo_level cols rows repeat_each font_path show_demo fill_last_page
      blank_row_after_each
    = Ok [img]
    ∧ text_layer img = []
    ∧ generate_single_page_image pil [] grid_type grid_color_name text_color_name
        demo_level cols rows font_path show_demo blank_row_after_each
      = Ok img.
Proof.
  intros Htext Hrepeat Hcap.
  destruct (capacity_needs_a_grid cols rows blank_row_after_each Hcap)
    as [Hcols Hrows].
  destruct (empty_chunk_page pil grid_type grid_color_name text_color_name demo_level
              cols rows font_path show_demo blank_row_after_each Hcols Hrows)
    as (img & Himg & Hempty).
  exists img. split; [|by split].
  assert (page_chars_of [] (page_capacity cols rows blank_row_after_each)
            fill_last_page 0 = []) as Hpage.
  { unfold page_chars_of, page_slice, slice, fill_page. rewrite drop_nil, take_nil.
    by rewrite andb_false_r. }
  assert (paginate [] cols rows fill_last_page blank_row_after_each = Ok [[]])
    as Hpages.
  { unfold paginate, total_pages.
    destruct (decide (page_capacity cols rows blank_row_after_each = 0)) as [?|_];
      [done|].
    change (ceil_div (len (@nil codepoint))
              (page_capacity cols rows blank_row_after_each))
      with (- (0 `div` page_capacity cols rows blank_row_after_each)).
    rewrite Z.div_0_l by done.
    change (Ok (page_chars_of [] (page_capacity cols rows blank_row_after_each)
                  fill_last_page <$> [0])
            = Ok [@nil codepoint]).
    by rewrite list_fmap_singleton, Hpage. }
  unfold generate_multi_page_images.
  rewrite bool_decide_eq_false_2 by done.
  rewrite stream_without_repeats, Hpages by done.
  simpl. by rewrite Himg.
Qed.

Lemma no_repeat_gives_one_empty_page_sample :
  ∃ img,
    generate_multi_page_images sample_pillow [0x6C38; 0x548C]%N "田字格" "红色" "黑色"
      "适中" 10 14 0 "" true true false
    = Ok [img]
    ∧ text_layer img = []
    ∧ generate_single_page_image sample_pillow [] "田字格" "红色" "黑色" "适中" 10 14
        "" true false
      = Ok img.
Proof.
  apply (no_repeat_gives_one_empty_page sample_pillow [0x6C38; 0x548C]%N "田字格"
           "红色" "黑色" "适中" 10 14 0 "" true true false);
    [discriminate|lia|vm_compute; discriminate].
Defined.

(** ** The corpus loader, further *)

Lemma loop_ext {A S} (body body' : S → A → result S) (l : list A) (s : S) :
  (∀ s a, a ∈ l → body s a = body' s a) →
  Loader.loop body s l = Loader.loop body' s l.
Proof.
  revert s. induction l as [|a l IH]; intros s Hsame; simpl; [done|].
  rewrite Hsame by (by left). destruct (body' s a) as [s'|e]; simpl; [|done].
  apply IH. intros s'' a' Ha'. apply Hsame. by right.
Qed.




Section LoaderFacts.
Context (h : Loader.host).

Lemma dict_get_no_key_error (poem : Loader.json) (key : string) (dflt : Loader.json) :
  Loader.dict_get poem key dflt ≠ Raise KeyError.
Proof. by destruct poem. Qed.





End LoaderFacts.



Section TwoHosts.
Context (h h' : Loader.host).
Hypothesis Hrender : ∀ v, Loader.render h v = Loader.render h' v.

Lemma collect_poem_same (tag : string) (texts : list string) (poem : Loader.json) :
  Loader.collect_poem h tag texts poem = Loader.collect_poem h' tag texts poem.
Proof.
  unfold Loader.collect_poem, Loader.format.
  destruct (Loader.dict_get poem tag _) as [paras|e]; simpl; [|done].
  assert (match paras with
          | Loader.JStr s => Str.strip s
          | Loader.JArr items =>
              Str.join (String "010" "")
                (Loader.str_value <$> List.filter Loader.is_nonblank_str items)
          | _ => Loader.render h paras
          end
          = match paras with
            | Loader.JStr s => Str.strip s
            | Loader.JArr items =>
                Str.join (String "010" "")
                  (Loader.str_value <$> List.filter Loader.is_nonblank_str items)
            | _ => Loader.render h' paras
            end) as -> by (destruct paras; by rewrite ?Hrender).
  case_bool_decide; [done|].
  destruct poem as [| | | | |fields]; simpl; try done.
  repeat match goal with
         | |- context [default ?d ?o] => destruct (default d o); rewrite ?Hrender
         end; done.
Qed.

Lemma collect_from_file_same (tag : string) (texts : list string) (filepath : string) :
  Loader.fs h filepath = Loader.fs h' filepath →
  Loader.collect_from_file h tag texts filepath
  = Loader.collect_from_file h' tag texts filepath.
Proof.
  intros Hfile. unfold Loader.collect_from_file, Loader.load_json. rewrite Hfile.
  destruct (Loader.fs h' filepath) as [|[data|]|entries]; simpl; try done.
  destruct (Loader.iterate data) as [poems|e]; simpl; [|done].
  apply loop_ext. intros s poem _. apply collect_poem_same.
Qed.

Lemma extract_file_same (tag : string) (body : list Loader.json) (filepath : string) :
  Loader.fs h filepath = Loader.fs h' filepath →
  Loader.extract_file h tag body filepath = Loader.extract_file h' tag body filepath.
Proof.
  intros Hfile. unfold Loader.extract_file, Loader.load_json. by rewrite Hfile.
Qed.

End TwoHosts.

(** X11: the files on the exclusion list of a dataset are never read: if
    two hosts agree on the path of the dataset, on its entries that are not
    excluded and on the rendering of values, then [poems_as_text] and
    [body_extractor] print and return the same on both, whatever the excluded
    files hold. *)
Theorem excluded_files_are_not_read (h h' : Loader.host)
    (self : Loader.PlainDataLoader) (target : string) (configs : Loader.dataset) :
  Loader.datasets self !! target = Some configs →
  same_for_dataset h h' self configs →
  Loader.poems_as_text h self target = Loader.poems_as_text h' self target
  ∧ Loader.body_extractor h self target = Loader.body_extractor h' self target.
Proof.
  intros Hconfigs (Hpath & Hentries & Hrender).
  unfold Loader.poems_as_text, Loader.body_extractor. rewrite Hconfigs.
  unfold Loader.isfile, Loader.listdir. rewrite <- Hpath.
  set (full_path := Str.path_join _ _) in *.
  destruct (Loader.fs h full_path) as [|content|entries] eqn:Hnode; simpl.
  - done.
  - split; f_equal; [|f_equal].
    + apply collect_from_file_same; [done|]. by rewrite <- Hpath, Hnode.
    + apply extract_file_same. by rewrite <- Hpath, Hnode.
  - split; f_equal; [|f_equal].
    + apply loop_ext. intros texts filename _.
      case_bool_decide as Hexcluded; [done|].
      apply collect_from_file_same; [done|]. by apply Hentries.
    + apply loop_ext. intros body filename _.
      destruct (Loader.ds_excludes configs) as [excludes|] eqn:Hexcludes; simpl;
        [|done].
      case_bool_decide as Hexcluded; [done|].
      apply extract_file_same. by apply Hentries.
Qed.

Lemma excluded_files_are_not_read_sample :
  Loader.poems_as_text sample_host sample_loader "song"
  = Loader.poems_as_text sample_host_with_readme sample_loader "song"
  ∧ Loader.body_extractor sample_host sample_loader "song"
    = Loader.body_extractor sample_host_with_readme sample_loader "song".
Proof.
  apply (excluded_files_are_not_read sample_host sample_host_with_readme sample_loader
           "song" (Loader.Dataset 1 "song" "paragraphs" (Some ["README.md"])));
    [vm_compute; reflexivity|].
  split; [vm_compute; reflexivity|]. split; [|intros v; reflexivity].
  intros filename Hfilename.
  change (Loader.fs sample_host (Str.path_join "./chinese-poetry/song" filename)
          = (if bool_decide (Str.path_join "./chinese-poetry/song" filename
                             = "./chinese-poetry/song/README.md")
             then Loader.File (Some (Loader.JArr [sample_poem]))
             else Loader.fs sample_host (Str.path_join "./chinese-poetry/song" filename))).
  case_bool_decide as Hreadme; [|done].
  exfalso. apply Hfilename. simpl.
  unfold Str.path_join in Hreadme.
  destruct (String.prefix "/" filename) eqn:Habsolute.
  - subst filename. by vm_compute in Habsolute.
  - vm_compute in Hreadme. simplify_eq. by left.
Defined.




Lemma extract_from_multiple_from_app (h : Loader.host) (self : Loader.PlainDataLoader)
    (targets : list string) (bodies : list (list Loader.json)) (more : list string)
    (printed : list string) (results : list Loader.json) :
  Forall2 (λ t body, Loader.body_extractor h self t = ([], Ok (Some body)))
    targets bodies →
  extract_from_multiple_from h self printed results (targets ++ more)
  = extract_from_multiple_from h self printed (results ++ concat bodies) more.
Proof.
  intros Hall. revert printed results.
  induction Hall as [|t body targets bodies Ht _ IH]; intros printed results; simpl.
  - by rewrite app_nil_r.
  - rewrite Ht, app_nil_r, IH. by rewrite app_assoc.
Qed.

(** X13: [extract_from_multiple] concatenates the bodies of its targets in
    order as long as each is extracted; a target that is not in the registry
    makes it raise [TypeError], after the warning is printed, because
    [body_extractor] returns [None] for it, and the bodies collected before
    are lost. *)
Theorem extract_from_multiple_needs_registered (h : Loader.host)
    (self : Loader.PlainDataLoader) (before : list string)
    (bodies : list (list Loader.json)) (target : string) (after : list string) :
  Forall2 (λ t body, Loader.body_extractor h self t = ([], Ok (Some body)))
    before bodies →
  Loader.datasets self !! target = None →
  extract_from_multiple h self before = ([], Ok (concat bodies))
  ∧ extract_from_multiple h self (before ++ target :: after)
    = ([Loader.not_included target], Raise TypeError).
Proof.
  intros Hbefore Htarget. unfold extract_from_multiple. split.
  - rewrite <- (app_nil_r before).
    by rewrite (extract_from_multiple_from_app h self before bodies [] [] [] Hbefore).
  - rewrite (extract_from_multiple_from_app h self before bodies _ [] [] Hbefore).
    simpl. unfold Loader.body_extractor. by rewrite Htarget.
Qed.

Lemma extract_from_multiple_needs_registered_sample :
  extract_from_multiple sample_host sample_loader ["tang"]
  = ([], Ok (concat
               [[Loader.JStr "床前明月光，疑是地上霜。"; Loader.JStr " ";
                 Loader.JStr "举头望明月，低头思故乡。"]]))
  ∧ extract_from_multiple sample_host sample_loader (["tang"] ++ "ming" :: ["song"])
    = ([Loader.not_included "ming"], Raise TypeError).
Proof.
  apply (extract_from_multiple_needs_registered sample_host sample_loader ["tang"]
           [[Loader.JStr "床前明月光，疑是地上霜。"; Loader.JStr " ";
             Loader.JStr "举头望明月，低头思故乡。"]] "ming" ["song"]).
  - repeat constructor.
  - vm_compute. reflexivity.
Defined.

(** ** Font discovery *)






(** ** Fetching the corpus *)

(** X16: once the path is expanded, [ensure_poetry_repo] never raises: it
    returns a flag and a message.  The flag is true exactly when git was run,
    as a pull if the path exists and as a clone after the parent directories
    were made if it does not, and exited with code 0; every failure to look
    at the path, to make the directories or to start git gives false. *)
Theorem ensure_poetry_repo_reports (g : git_host) (repo_dir repo_path : string) :
  expanduser g repo_dir = Some repo_path →
  ∃ ok message,
    ensure_poetry_repo g repo_dir = Some (ok, message)
    ∧ (ok = true
       ↔ ∃ present result,
           path_exists g repo_path = Done present
           ∧ (present = true ∨ make_parents g repo_path = Done tt)
           ∧ run g (git_command present repo_path) = Done result
           ∧ returncode result = 0).
Proof.
  intros Hpath. unfold ensure_poetry_repo, fetch_or_update. rewrite Hpath.
  destruct (path_exists g repo_path) as [[|]|f] eqn:Hexists.
  - destruct (run g (pull_command repo_path)) as [result|f] eqn:Hrun.
    + destruct (Z.eqb_spec (returncode result) 0) as [Hcode|Hcode]; simpl.
      * eexists _, _. split; [reflexivity|]. split; [|done].
        intros _. exists true, result.
        split; [done|]. split; [by left|]. by split.
      * eexists _, _. split; [reflexivity|]. split; [done|].
        intros (present & result' & [= <-] & _ & Hrun' & Hcode').
        simpl in Hrun'. congruence.
    + destruct f; eexists _, _; (split; [reflexivity|]); (split; [done|]);
        intros (present & result' & [= <-] & _ & Hrun' & _); simpl in Hrun'; congruence.
  - destruct (make_parents g repo_path) as [[]|f] eqn:Hmkdir.
    + destruct (run g (clone_command repo_path)) as [result|f] eqn:Hrun.
      * destruct (Z.eqb_spec (returncode result) 0) as [Hcode|Hcode]; simpl.
        -- eexists _, _. split; [reflexivity|]. split; [|done].
           intros _. exists false, result.
           split; [done|]. split; [by right|]. by split.
        -- eexists _, _. split; [reflexivity|]. split; [done|].
           intros (present & result' & [= <-] & _ & Hrun' & Hcode').
           simpl in Hrun'. congruence.
      * destruct f; eexists _, _; (split; [reflexivity|]); (split; [done|]);
          intros (present & result' & [= <-] & _ & Hrun' & _); simpl in Hrun'; congruence.
    + destruct f; eexists _, _; (split; [reflexivity|]); (split; [done|]);
        intros (present & result' & [= <-] & [?|?] & _); congruence.
  - destruct f; eexists _, _; (split; [reflexivity|]); (split; [done|]);
      intros (present & result' & ? & _); congruence.
Qed.

Lemma ensure_poetry_repo_reports_sample :
  ∃ ok message,
    ensure_poetry_repo sample_git_host "./chinese-poetry" = Some (ok, message)
    ∧ (ok = true
       ↔ ∃ present result,
           path_exists sample_git_host "./chinese-poetry" = Done present
           ∧ (present = true ∨ make_parents sample_git_host "./chinese-poetry" = Done tt)
           ∧ run sample_git_host (git_command present "./chinese-poetry") = Done result
           ∧ returncode result = 0).
Proof.
  by apply (ensure_poetry_repo_reports sample_git_host "./chinese-poetry"
              "./chinese-poetry").
Defined.

(** ** The page of the application *)





Section PageFacts.
Context (pil : pillow).




End PageFacts.


(** ** The grid of a document *)

Lemma foldl_related {S A} (R : S → S → Prop) (f g : S → A → S) (l : list A)
    (s s' : S) :
  (∀ a s s', R s s' → R (f s a) (g s' a)) → R s s' → R (foldl f s l) (foldl g s' l).
Proof.
  intros Hstep. revert s s'. induction l as [|a l IH]; intros s s' Hs; simpl; [done|].
  apply IH. by apply Hstep.
Qed.

Section GridLayerFacts.
Context (pil : pillow) (grid_type : string) (grid_color : rgb)
  (cols cell_size offset_x offset_y : Z).

Lemma compose_cell_same_grid (page_chars page_chars' : list codepoint)
    (text_color text_color' : rgb) (alpha alpha' max_demo_cells max_demo_cells' : Z)
    (fnt fnt' : font pil) (show_demo show_demo' blank blank' : bool)
    (r c : Z) (st st' : composer pil) :
  cmp_draw pil st = cmp_draw pil st' →
  cmp_draw pil
    (compose_cell pil page_chars grid_type grid_color text_color alpha cell_size
       offset_x offset_y max_demo_cells fnt show_demo blank r st c)
  = cmp_draw pil
      (compose_cell pil page_chars' grid_type grid_color text_color' alpha' cell_size
         offset_x offset_y max_demo_cells' fnt' show_demo' blank' r st' c).
Proof.
  intros Hdraw. unfold compose_cell. rewrite Hdraw.
  destruct text_color as [[? ?] ?], text_color' as [[? ?] ?].
  by repeat case_match.
Qed.

Lemma compose_rows_same_grid (page_chars page_chars' : list codepoint)
    (text_color text_color' : rgb) (alpha alpha' max_demo_cells max_demo_cells' : Z)
    (fnt fnt' : font pil) (show_demo show_demo' blank blank' : bool)
    (rs : list Z) (st st' : composer pil) :
  cmp_draw pil st = cmp_draw pil st' →
  cmp_draw pil
    (foldl
       (compose_row pil page_chars grid_type grid_color text_color alpha cols
          cell_size offset_x offset_y max_demo_cells fnt show_demo blank) st rs)
  = cmp_draw pil
      (foldl
         (compose_row pil page_chars' grid_type grid_color text_color' alpha' cols
            cell_size offset_x offset_y max_demo_cells' fnt' show_demo' blank')
         st' rs).
Proof.
  apply (foldl_related (λ st st', cmp_draw pil st = cmp_draw pil st')).
  intros r s s' Hs. unfold compose_row.
  apply (foldl_related (λ st st', cmp_draw pil st = cmp_draw pil st')); [|done].
  intros c s1 s1' Hs1. by apply compose_cell_same_grid.
Qed.

End GridLayerFacts.

(** X18: the grid of a page depends only on the grid style, the grid
    colour and the numbers of columns and rows: two pages rendered with these
    in common have the same base layer, whatever their characters, text
    colour, demonstration level, font, [show_demo] and blank-row mode; so all
    pages of a document carry the same grid. *)
Theorem grid_is_the_same_on_every_page (pil : pillow)
    (page_chars page_chars' : list codepoint) (grid_type grid_color_name : string)
    (text_color_name text_color_name' demo_level demo_level' : string) (cols rows : Z)
    (font_path font_path' : string) (show_demo show_demo' blank blank' : bool) :
  cols ≠ 0 → rows ≠ 0 →
  ∃ img img',
    generate_single_page_image pil page_chars grid_type grid_color_name
      text_color_name demo_level cols rows font_path show_demo blank = Ok img
    ∧ generate_single_page_image pil page_chars' grid_type grid_color_name
        text_color_name' demo_level' cols rows font_path' show_demo' blank' = Ok img'
    ∧ base_layer img = base_layer img'.
Proof.
  intros Hcols Hrows. unfold generate_single_page_image, floordiv.
  destruct (decide (cols = 0)) as [?|_]; [done|].
  destruct (decide (rows = 0)) as [?|_]; [done|].
  simpl. rewrite !load_font_resolves. simpl.
  set (cell_size := Z.min _ _).
  destruct (resolve_as_specified pil font_path _) as [fnt info].
  destruct (resolve_as_specified pil font_path' _) as [fnt' info'].
  eexists _, _. split; [reflexivity|]. split; [reflexivity|]. simpl.
  by apply compose_rows_same_grid.
Qed.

Lemma grid_is_the_same_on_every_page_sample :
  ∃ img img',
    generate_single_page_image sample_pillow [0x6C38; 0x548C]%N "九宫格" "绿色" "黑色"
      "深" 10 14 "" true false = Ok img
    ∧ generate_single_page_image sample_pillow [0x4E5D]%N "九宫格" "绿色" "红色" "适中"
        10 14 "simhei.ttf" false true = Ok img'
    ∧ base_layer img = base_layer img'.
Proof.
  apply (grid_is_the_same_on_every_page sample_pillow [0x6C38; 0x548C]%N [0x4E5D]%N
           "九宫格" "绿色" "黑色" "红色" "深" "适中" 10 14 "" "simhei.ttf" true false
           false true); lia.
Defined.
